(** * AD9081 binding: channel topology discovery and attribute facade

    A shallow embedding of [adi/ad9081.py]: the helpers [_map_to_dict] and
    [_sortconv], the topology part of [ad9081.__init__] and the property
    accessors of the class, with the properties of the specification
    stated and proved over them.

    Conventions.
    - Python [str] is [string]; channel identifiers and labels are ASCII.
    - Python [int] is [Z].
    - A Python [dict] is an association list in insertion order, because
      the constructor iterates over the path map and the order of the
      derived lists depends on it.
    - A raised exception is the [Raise] case of [result]. *)

From Stdlib Require Import List String Ascii ZArith Bool Lia Permutation Sorted.
Import ListNotations.
Open Scope string_scope.
Open Scope Z_scope.
Open Scope list_scope.

(** ** Exceptions and results *)

Inductive exn : Type :=
| ValueError
| IndexError
| KeyError
| Exception (msg : string)
| DeviceError.

Inductive result (A : Type) : Type :=
| Ok (a : A)
| Raise (e : exn).
Arguments Ok {A} a.
Arguments Raise {A} e.

Definition bind {A B : Type} (r : result A) (k : A -> result B) : result B :=
  match r with
  | Ok a => k a
  | Raise e => Raise e
  end.

Notation "x <- r ;; k" := (bind r (fun x => k))
  (at level 61, r at next level, right associativity).

(** [mapM f l] calls [f] on the elements from left to right and stops at
    the first exception. *)
Fixpoint mapM {A B : Type} (f : A -> result B) (l : list A) : result (list B) :=
  match l with
  | [] => Ok []
  | x :: t => y <- f x ;; ys <- mapM f t ;; Ok (y :: ys)
  end.

(** ** Python string primitives *)

Module PyStr.

(** [sub in s] *)
Fixpoint contains (sub s : string) : bool :=
  if prefix sub s then true
  else match s with
       | EmptyString => false
       | String _ s' => contains sub s'
       end.

(** [s.find(sub)]: the lowest index at which [sub] occurs, or [-1]. *)
Fixpoint find_from (sub s : string) (i : Z) : Z :=
  if prefix sub s then i
  else match s with
       | EmptyString => -1
       | String _ s' => find_from sub s' (i + 1)
       end.

Definition find (s sub : string) : Z := find_from sub s 0.

Fixpoint drop (n : nat) (s : string) : string :=
  match n, s with
  | O, _ => s
  | S _, EmptyString => EmptyString
  | S k, String _ s' => drop k s'
  end.

Fixpoint take (n : nat) (s : string) : string :=
  match n, s with
  | O, _ => EmptyString
  | S _, EmptyString => EmptyString
  | S k, String c s' => String c (take k s')
  end.

(** A slice bound: a negative bound counts from the end, and the result
    is clipped to [0 .. len]. *)
Definition clip (len i : Z) : Z :=
  let j := if i <? 0 then i + len else i in
  if j <? 0 then 0 else if len <? j then len else j.

(** [s[lo:hi]] *)
Definition slice (s : string) (lo hi : Z) : string :=
  let len := Z.of_nat (String.length s) in
  let a := clip len lo in
  let b := clip len hi in
  if a <? b then take (Z.to_nat (b - a)) (drop (Z.to_nat a) s) else EmptyString.

(** [s[lo:]] *)
Definition slice_from (s : string) (lo : Z) : string :=
  let len := Z.of_nat (String.length s) in
  drop (Z.to_nat (clip len lo)) s.

(** [s.split(sep)] for a non-empty separator: the occurrences of [sep]
    are found from left to right and do not overlap.  [skip] counts the
    characters of a separator just matched that are still to be passed
    over, [cur] is the token read so far. *)
Fixpoint split_from (sep : string) (skip : nat) (cur s : string) : list string :=
  match s with
  | EmptyString => [cur]
  | String c s' =>
      match skip with
      | S k => split_from sep k cur s'
      | O =>
          if prefix sep s
          then cur :: split_from sep (String.length sep - 1) EmptyString s'
          else split_from sep O (cur ++ String c EmptyString)%string s'
      end
  end.

Definition split (s sep : string) : list string := split_from sep O EmptyString s.

(** The white space that [int] skips at both ends of an ASCII string:
    tab, line feed, vertical tab, form feed, carriage return, space. *)
Definition is_space (c : ascii) : bool :=
  let n := nat_of_ascii c in
  ((9 <=? n) && (n <=? 13) || (n =? 32))%nat.

Definition digit_of (c : ascii) : option Z :=
  let n := Z.of_nat (nat_of_ascii c) in
  if (48 <=? n) && (n <=? 57) then Some (n - 48) else None.

Fixpoint lstrip (s : string) : string :=
  match s with
  | EmptyString => EmptyString
  | String c s' => if is_space c then lstrip s' else s
  end.

Fixpoint rstrip (s : string) : string :=
  match s with
  | EmptyString => EmptyString
  | String c s' =>
      match rstrip s' with
      | EmptyString => if is_space c then EmptyString else String c EmptyString
      | r => String c r
      end
  end.

(** The digits of a decimal literal: at least one digit, and single
    underscores allowed between digits only.  [prev] tells whether the
    character just read was a digit. *)
Fixpoint int_digits (acc : Z) (prev : bool) (s : string) : option Z :=
  match s with
  | EmptyString => if prev then Some acc else None
  | String c s' =>
      match digit_of c with
      | Some d => int_digits (10 * acc + d) true s'
      | None =>
          if Ascii.eqb c "_" && prev then int_digits acc false s' else None
      end
  end.

(** [int(s)] in base ten on an ASCII string; [ValueError] when [s] is not
    a decimal literal.  The conversion is exact whatever the number of
    digits. *)
Definition int (s : string) : result Z :=
  let t := rstrip (lstrip s) in
  let r :=
    match t with
    | String c t' =>
        if Ascii.eqb c "-" then option_map Z.opp (int_digits 0 false t')
        else if Ascii.eqb c "+" then int_digits 0 false t'
        else int_digits 0 false t
    | EmptyString => None
    end in
  match r with
  | Some z => Ok z
  | None => Raise ValueError
  end.

End PyStr.

(** ** [sorted(l, key=...)]

    All keys are computed first, from left to right, and the first
    failing key ends the call; the sort itself is stable. *)

Section Sorted.
Context {A : Type}.

(** Insertion before the first element whose key is not smaller. *)
Fixpoint insert_key (k : Z) (x : A) (l : list (Z * A)) : list (Z * A) :=
  match l with
  | [] => [(k, x)]
  | (k', y) :: t =>
      if k <=? k' then (k, x) :: (k', y) :: t
      else (k', y) :: insert_key k x t
  end.

Fixpoint sort_keyed (l : list (Z * A)) : list (Z * A) :=
  match l with
  | [] => []
  | (k, x) :: t => insert_key k x (sort_keyed t)
  end.

Definition decorate (key : A -> result Z) (l : list A) : result (list (Z * A)) :=
  mapM (fun x => k <- key x ;; Ok (k, x)) l.

Definition sorted (l : list A) (key : A -> result Z) : result (list A) :=
  kl <- decorate key l ;; Ok (map snd (sort_keyed kl)).

End Sorted.

(** ** [_sortconv] *)

Definition has_i (k : string) : bool := PyStr.contains "_i" k.
Definition has_q (k : string) : bool := PyStr.contains "_q" k.

Definition ignoreadc (w : string) : result Z :=
  PyStr.int (PyStr.slice w (Z.of_nat (String.length "voltage")) (PyStr.find w "_")).

Definition ignorealt (w : string) : result Z :=
  PyStr.int (PyStr.slice_from w (Z.of_nat (String.length "altvoltage"))).

(** The loop [for i in range(len(tmpI))]: [tmpI] is walked in order, [i]
    is the loop index and [tmpQ[i]] raises [IndexError] when [tmpQ] is
    too short. *)
Fixpoint sortconv_loop (noq : bool) (tmpI tmpQ : list string) (i : nat)
    (chans_names_out : list string) : result (list string) :=
  match tmpI with
  | [] => Ok chans_names_out
  | x :: rest =>
      let out := chans_names_out ++ [x] in
      if noq then sortconv_loop noq rest tmpQ (S i) out
      else match nth_error tmpQ i with
           | Some q => sortconv_loop noq rest tmpQ (S i) (out ++ [q])
           | None => Raise IndexError
           end
  end.

Definition _sortconv (chans_names : list string) (noq dds : bool)
    : result (list string) :=
  let tmpI := filter has_i chans_names in
  let tmpQ := filter has_q chans_names in
  let filt := if dds then ignorealt else ignoreadc in
  let tmpI := if dds then chans_names else tmpI in
  let noq := if dds then true else noq in
  tmpI <- sorted tmpI filt ;;
  tmpQ <- sorted tmpQ filt ;;
  sortconv_loop noq tmpI tmpQ 0 [].

(** ** Dictionaries in insertion order *)

Definition dict (V : Type) : Type := list (string * V).

(** [d[k]], [None] when the key is missing. *)
Fixpoint dict_get {V : Type} (d : dict V) (k : string) : option V :=
  match d with
  | [] => None
  | (k', v) :: t => if String.eqb k k' then Some v else dict_get t k
  end.

(** [d[k] = v]: an existing key keeps its place, a new key goes last. *)
Fixpoint dict_set {V : Type} (d : dict V) (k : string) (v : V) : dict V :=
  match d with
  | [] => [(k, v)]
  | (k', v') :: t =>
      if String.eqb k k' then (k', v) :: t else (k', v') :: dict_set t k v
  end.

(** ** Channels and the path map *)

(** An IIO channel as the constructor sees it: [label] is
    [ch.attrs["label"].value], [None] when ["label" in ch.attrs] is
    false. *)
Record channel : Type := {
  _id : string;
  label : option string;
  scan_element : bool;
  output : bool
}.

(** The leaf [{"channels": [...]}]. *)
Record fdc_entry : Type := { channels : list string }.

Definition fdc_map : Type := dict fdc_entry.
Definition cdc_map : Type := dict fdc_map.
Definition path_map : Type := dict cdc_map.

(** [_map_to_dict paths ch].  The nested dictionaries are reached only
    through [paths], so the in-place updates of the source are written as
    one update of the three levels: [cmap] is [paths[adc]] after line 43,
    [fmap] is [paths[adc][cddc]] after line 45, [leaf] is what lines
    46-49 store under [fddc]. *)
Definition _map_to_dict (paths : path_map) (ch : channel) : result path_map :=
  match label ch with
  | None => Raise KeyError
  | Some l =>
      match PyStr.split l "->" with
      | [fddc; cddc; adc] =>
          let cmap := match dict_get paths adc with Some m => m | None => [] end in
          let fmap := match dict_get cmap cddc with Some m => m | None => [] end in
          let leaf :=
            match dict_get fmap fddc with
            | None => {| channels := [_id ch] |}
            | Some e => {| channels := channels e ++ [_id ch] |}
            end in
          Ok (dict_set paths adc (dict_set cmap cddc (dict_set fmap fddc leaf)))
      | _ => Raise ValueError
      end
  end.

(** Lines 110-115 of [__init__]: the loop that builds the path map. *)
Fixpoint build_path_map (paths : path_map) (chs : list channel) : result path_map :=
  match chs with
  | [] => Ok paths
  | ch :: rest =>
      match label ch with
      | Some _ => paths' <- _map_to_dict paths ch ;; build_path_map paths' rest
      | None => build_path_map paths rest
      end
  end.

(** The leaf list under [m[adc][cddc][fddc]]. *)
Definition leaf_channels (m : path_map) (adc cddc fddc : string) : option (list string) :=
  match dict_get m adc with
  | None => None
  | Some cmap =>
      match dict_get cmap cddc with
      | None => None
      | Some fmap => option_map channels (dict_get fmap fddc)
      end
  end.

(** ** State and exceptions together *)

Definition M (S A : Type) : Type := S -> result A * S.

Definition ret {S A : Type} (a : A) : M S A := fun s => (Ok a, s).

Definition raise {S A : Type} (e : exn) : M S A := fun s => (Raise e, s).

Definition mbind {S A B : Type} (m : M S A) (k : A -> M S B) : M S B :=
  fun s =>
    match m s with
    | (Ok a, s') => k a s'
    | (Raise e, s') => (Raise e, s')
    end.

Definition lift {S A : Type} (r : result A) : M S A := fun s => (r, s).
Definition gets {S A : Type} (f : S -> A) : M S A := fun s => (Ok (f s), s).
Definition modify {S : Type} (f : S -> S) : M S unit := fun s => (Ok tt, f s).

Notation "x <~ m ;; k" := (mbind m (fun x => k))
  (at level 61, m at next level, right associativity).
Notation "m ;;; k" := (mbind m (fun _ => k))
  (at level 61, right associativity).

Fixpoint for_each {S A : Type} (l : list A) (body : A -> M S unit) : M S unit :=
  match l with
  | [] => ret tt
  | x :: t => body x ;;; for_each t body
  end.

(** ** The object and its constructor *)

(** The attributes of an [ad9081] object that the class body declares
    and the constructor fills.  On a fresh object an attribute that has
    not been assigned reads the class attribute; the constructor appends
    in place to several of these lists before (or without) assigning
    them, so the value at entry is whatever earlier constructions left in
    the class. *)
Record ad9081 : Type := {
  _path_map : path_map;
  _rx_channel_names : list string;
  _tx_channel_names : list string;
  _dds_channel_names : list string;
  _rx_coarse_ddc_channel_names : list string;
  _rx_fine_ddc_channel_names : list string;
  _tx_coarse_duc_channel_names : list string;
  _tx_fine_duc_channel_names : list string
}.

Definition class_ad9081 : ad9081 :=
  {| _path_map := []; _rx_channel_names := []; _tx_channel_names := [];
     _dds_channel_names := []; _rx_coarse_ddc_channel_names := [];
     _rx_fine_ddc_channel_names := []; _tx_coarse_duc_channel_names := [];
     _tx_fine_duc_channel_names := [] |}.

Definition set_path_map (v : path_map) (o : ad9081) : ad9081 :=
  {| _path_map := v; _rx_channel_names := _rx_channel_names o;
     _tx_channel_names := _tx_channel_names o;
     _dds_channel_names := _dds_channel_names o;
     _rx_coarse_ddc_channel_names := _rx_coarse_ddc_channel_names o;
     _rx_fine_ddc_channel_names := _rx_fine_ddc_channel_names o;
     _tx_coarse_duc_channel_names := _tx_coarse_duc_channel_names o;
     _tx_fine_duc_channel_names := _tx_fine_duc_channel_names o |}.

Definition set_rx_channel_names (v : list string) (o : ad9081) : ad9081 :=
  {| _path_map := _path_map o; _rx_channel_names := v;
     _tx_channel_names := _tx_channel_names o;
     _dds_channel_names := _dds_channel_names o;
     _rx_coarse_ddc_channel_names := _rx_coarse_ddc_channel_names o;
     _rx_fine_ddc_channel_names := _rx_fine_ddc_channel_names o;
     _tx_coarse_duc_channel_names := _tx_coarse_duc_channel_names o;
     _tx_fine_duc_channel_names := _tx_fine_duc_channel_names o |}.

Definition set_tx_channel_names (v : list string) (o : ad9081) : ad9081 :=
  {| _path_map := _path_map o; _rx_channel_names := _rx_channel_names o;
     _tx_channel_names := v;
     _dds_channel_names := _dds_channel_names o;
     _rx_coarse_ddc_channel_names := _rx_coarse_ddc_channel_names o;
     _rx_fine_ddc_channel_names := _rx_fine_ddc_channel_names o;
     _tx_coarse_duc_channel_names := _tx_coarse_duc_channel_names o;
     _tx_fine_duc_channel_names := _tx_fine_duc_channel_names o |}.

Definition set_dds_channel_names (v : list string) (o : ad9081) : ad9081 :=
  {| _path_map := _path_map o; _rx_channel_names := _rx_channel_names o;
     _tx_channel_names := _tx_channel_names o;
     _dds_channel_names := v;
     _rx_coarse_ddc_channel_names := _rx_coarse_ddc_channel_names o;
     _rx_fine_ddc_channel_names := _rx_fine_ddc_channel_names o;
     _tx_coarse_duc_channel_names := _tx_coarse_duc_channel_names o;
     _tx_fine_duc_channel_names := _tx_fine_duc_channel_names o |}.

Definition set_rx_coarse (v : list string) (o : ad9081) : ad9081 :=
  {| _path_map := _path_map o; _rx_channel_names := _rx_channel_names o;
     _tx_channel_names := _tx_channel_names o;
     _dds_channel_names := _dds_channel_names o;
     _rx_coarse_ddc_channel_names := v;
     _rx_fine_ddc_channel_names := _rx_fine_ddc_channel_names o;
     _tx_coarse_duc_channel_names := _tx_coarse_duc_channel_names o;
     _tx_fine_duc_channel_names := _tx_fine_duc_channel_names o |}.

Definition set_rx_fine (v : list string) (o : ad9081) : ad9081 :=
  {| _path_map := _path_map o; _rx_channel_names := _rx_channel_names o;
     _tx_channel_names := _tx_channel_names o;
     _dds_channel_names := _dds_channel_names o;
     _rx_coarse_ddc_channel_names := _rx_coarse_ddc_channel_names o;
     _rx_fine_ddc_channel_names := v;
     _tx_coarse_duc_channel_names := _tx_coarse_duc_channel_names o;
     _tx_fine_duc_channel_names := _tx_fine_duc_channel_names o |}.

Definition set_tx_coarse (v : list string) (o : ad9081) : ad9081 :=
  {| _path_map := _path_map o; _rx_channel_names := _rx_channel_names o;
     _tx_channel_names := _tx_channel_names o;
     _dds_channel_names := _dds_channel_names o;
     _rx_coarse_ddc_channel_names := _rx_coarse_ddc_channel_names o;
     _rx_fine_ddc_channel_names := _rx_fine_ddc_channel_names o;
     _tx_coarse_duc_channel_names := v;
     _tx_fine_duc_channel_names := _tx_fine_duc_channel_names o |}.

Definition set_tx_fine (v : list string) (o : ad9081) : ad9081 :=
  {| _path_map := _path_map o; _rx_channel_names := _rx_channel_names o;
     _tx_channel_names := _tx_channel_names o;
     _dds_channel_names := _dds_channel_names o;
     _rx_coarse_ddc_channel_names := _rx_coarse_ddc_channel_names o;
     _rx_fine_ddc_channel_names := _rx_fine_ddc_channel_names o;
     _tx_coarse_duc_channel_names := _tx_coarse_duc_channel_names o;
     _tx_fine_duc_channel_names := v |}.

(** Lines 137-140: the identifiers of all fine-stage buckets of one
    coarse group, in bucket order, then those that contain [_i]. *)
Definition group_channels (fmap : fdc_map) : list string :=
  flat_map (fun kv => channels (snd kv)) fmap.

Definition group_i_channels (fmap : fdc_map) : list string :=
  filter has_i (group_channels fmap).

(** Lines 137-146: the body of the inner loop for one coarse group.
    [channels[0]] raises [IndexError] on an empty list, before anything
    is appended for the group. *)
Definition derive_group (converter : string) (fmap : fdc_map) : M ad9081 unit :=
  let channels := group_i_channels fmap in
  if PyStr.contains "ADC" converter then
    match channels with
    | [] => raise IndexError
    | c0 :: _ =>
        modify (fun o => set_rx_coarse (_rx_coarse_ddc_channel_names o ++ [c0]) o) ;;;
        modify (fun o => set_rx_fine (_rx_fine_ddc_channel_names o ++ channels) o)
    end
  else
    match channels with
    | [] => raise IndexError
    | c0 :: _ =>
        modify (fun o => set_tx_coarse (_tx_coarse_duc_channel_names o ++ [c0]) o) ;;;
        modify (fun o => set_tx_fine (_tx_fine_duc_channel_names o ++ channels) o)
    end.

(** Lines 136-146: the coarse groups of one converter. *)
Definition derive_converter (converter : string) (cmap : cdc_map) : M ad9081 unit :=
  for_each cmap (fun kv => derive_group converter (snd kv)).

(** Lines 135-146: the loops over the path map. *)
Definition derive_names (paths : path_map) : M ad9081 unit :=
  for_each paths (fun kv => derive_converter (fst kv) (snd kv)).

(** The topology part of [__init__] (lines 110-146).  The context set-up
    before it and [rx_tx.__init__] after it belong to the IIO layer. *)
Definition __init__ (rxadc_channels txdac_channels : list channel) : M ad9081 unit :=
  paths <~ lift (build_path_map [] rxadc_channels) ;;
  modify (set_path_map paths) ;;;
  for_each rxadc_channels (fun ch =>
    if scan_element ch && negb (output ch)
    then modify (fun o => set_rx_channel_names (_rx_channel_names o ++ [_id ch]) o)
    else ret tt) ;;;
  for_each txdac_channels (fun ch =>
    if scan_element ch
    then modify (fun o => set_tx_channel_names (_tx_channel_names o ++ [_id ch]) o)
    else modify (fun o => set_dds_channel_names (_dds_channel_names o ++ [_id ch]) o)) ;;;
  rx <~ gets _rx_channel_names ;;
  rx' <~ lift (_sortconv rx false false) ;;
  modify (set_rx_channel_names rx') ;;;
  tx <~ gets _tx_channel_names ;;
  tx' <~ lift (_sortconv tx false false) ;;
  modify (set_tx_channel_names tx') ;;;
  dds <~ gets _dds_channel_names ;;
  dds' <~ lift (_sortconv dds false true) ;;
  modify (set_dds_channel_names dds') ;;;
  modify (set_rx_fine []) ;;;
  modify (set_rx_coarse []) ;;;
  derive_names paths.

(** ** The attribute facade *)

(** Attribute values as the accessors hand them to the caller. *)
Inductive value : Type :=
| VNum (z : Z)
| VStr (s : string).

(** [v == 0] *)
Definition eq_zero (v : value) : bool :=
  match v with
  | VNum z => z =? 0
  | VStr _ => false
  end.

(** What the object asks of the IIO layer, in the order asked. *)
Inductive io_event : Type :=
| ChanRead (channel_name : string) (output : bool) (attr_name : string)
| ChanWrite (channel_name : string) (output : bool) (attr_name : string) (v : value)
| DevRead (attr_name : string)
| DevWrite (attr_name : string) (v : value).

Definition is_write (e : io_event) : bool :=
  match e with
  | ChanWrite _ _ _ _ | DevWrite _ _ => true
  | ChanRead _ _ _ | DevRead _ => false
  end.

(** What a property returns. *)
Inductive retval : Type :=
| RNone
| RVal (v : value)
| RVec (vs : list value)
| RMap (m : path_map).

Definition ffh_error : string :=
  "To set a FFH NCO bank frequency, tx_main_ffh_index must > 0".

Section Facade.

(** The IIO context behind [self._ctrl]: an external library, taken as
    given.  A read does not change the device; a write either fails or
    yields the next device state. *)
Variable device : Type.
Variable chan_read : device -> string -> bool -> string -> result value.
Variable chan_write : device -> string -> bool -> string -> value -> result device.
Variable dev_read : device -> string -> result value.
Variable dev_write : device -> string -> value -> result device.

(** An object in use: its own attributes, the device behind it and the
    requests made of the device so far. *)
Record session : Type := {
  self : ad9081;
  ctx : device;
  trace : list io_event
}.

Definition log (e : io_event) : M session unit :=
  modify (fun s => {| self := self s; ctx := ctx s; trace := trace s ++ [e] |}).

Definition set_ctx (d : device) : M session unit :=
  modify (fun s => {| self := self s; ctx := d; trace := trace s |}).

(** Modelled from the spec: [_get_iio_attr] of the attribute helper layer
    ([adi/attribute.py], not among the sources); section 4.2: a read of
    the named attribute of the named channel in the given direction. *)
Definition _get_iio_attr (channel_name attr_name : string) (output : bool)
    : M session value :=
  log (ChanRead channel_name output attr_name) ;;;
  d <~ gets ctx ;;
  lift (chan_read d channel_name output attr_name).

(** Modelled from the spec: [_get_iio_attr_str] of the same layer, the
    read that hands the text of the attribute to the caller. *)
Definition _get_iio_attr_str (channel_name attr_name : string) (output : bool)
    : M session value :=
  _get_iio_attr channel_name attr_name output.

(** Modelled from the spec: [_set_iio_attr] of the same layer; section
    4.2: a write of the named attribute of the named channel. *)
Definition _set_iio_attr (channel_name attr_name : string) (output : bool)
    (v : value) : M session unit :=
  log (ChanWrite channel_name output attr_name v) ;;;
  d <~ gets ctx ;;
  d' <~ lift (chan_write d channel_name output attr_name v) ;;
  set_ctx d'.

(** Modelled from the spec: [_set_iio_attr_str] of the same layer. *)
Definition _set_iio_attr_str (channel_name attr_name : string) (output : bool)
    (v : value) : M session unit :=
  _set_iio_attr channel_name attr_name output v.

(** Modelled from the spec: [_get_iio_dev_attr], the device-level read. *)
Definition _get_iio_dev_attr (attr_name : string) : M session value :=
  log (DevRead attr_name) ;;;
  d <~ gets ctx ;;
  lift (dev_read d attr_name).

(** Modelled from the spec: [_set_iio_dev_attr], the device-level write. *)
Definition _set_iio_dev_attr (attr_name : string) (v : value) : M session unit :=
  log (DevWrite attr_name v) ;;;
  d <~ gets ctx ;;
  d' <~ lift (dev_write d attr_name v) ;;
  set_ctx d'.

(** Modelled from the spec: [_get_iio_attr_vec]; section 4.2: one read
    per name, in the order of the name list. *)
Fixpoint _get_iio_attr_vec (channel_names : list string) (attr_name : string)
    (output : bool) : M session (list value) :=
  match channel_names with
  | [] => ret []
  | n :: t =>
      v <~ _get_iio_attr n attr_name output ;;
      vs <~ _get_iio_attr_vec t attr_name output ;;
      ret (v :: vs)
  end.

(** Modelled from the spec: [_set_iio_attr_vec]; section 4.2: [values[i]]
    is written to [channel_names[i]] in list order, and a failure leaves
    the writes already made in place.  The spec leaves a length mismatch
    to the external layer; here it is a failure of that layer, met when
    the shorter sequence runs out. *)
Fixpoint _set_iio_attr_vec (channel_names : list string) (attr_name : string)
    (output : bool) (values : list value) : M session unit :=
  match channel_names, values with
  | [], [] => ret tt
  | n :: t, v :: vs =>
      _set_iio_attr n attr_name output v ;;;
      _set_iio_attr_vec t attr_name output vs
  | _, _ => raise DeviceError
  end.

(** *** The properties of the class, getter and setter *)

Definition path_map_get : M session path_map :=
  gets (fun s => _path_map (self s)).

Definition rx_channel_nco_frequencies_get : M session (list value) :=
  names <~ gets (fun s => _rx_fine_ddc_channel_names (self s)) ;;
  _get_iio_attr_vec names "channel_nco_frequency" false.

Definition rx_channel_nco_frequencies_set (v : list value) : M session unit :=
  names <~ gets (fun s => _rx_fine_ddc_channel_names (self s)) ;;
  _set_iio_attr_vec names "channel_nco_frequency" false v.

Definition rx_channel_nco_phases_get : M session (list value) :=
  names <~ gets (fun s => _rx_fine_ddc_channel_names (self s)) ;;
  _get_iio_attr_vec names "channel_nco_phase" false.

Definition rx_channel_nco_phases_set (v : list value) : M session unit :=
  names <~ gets (fun s => _rx_fine_ddc_channel_names (self s)) ;;
  _set_iio_attr_vec names "channel_nco_phase" false v.

Definition rx_main_nco_frequencies_get : M session (list value) :=
  names <~ gets (fun s => _rx_coarse_ddc_channel_names (self s)) ;;
  _get_iio_attr_vec names "main_nco_frequency" false.

Definition rx_main_nco_frequencies_set (v : list value) : M session unit :=
  names <~ gets (fun s => _rx_coarse_ddc_channel_names (self s)) ;;
  _set_iio_attr_vec names "main_nco_frequency" false v.

Definition rx_main_nco_phases_get : M session (list value) :=
  names <~ gets (fun s => _rx_coarse_ddc_channel_names (self s)) ;;
  _get_iio_attr_vec names "main_nco_phase" false.

Definition rx_main_nco_phases_set (v : list value) : M session unit :=
  names <~ gets (fun s => _rx_coarse_ddc_channel_names (self s)) ;;
  _set_iio_attr_vec names "main_nco_phase" false v.

Definition rx_test_mode_get : M session value :=
  _get_iio_attr_str "voltage0_i" "test_mode" false.

Definition rx_test_mode_set (v : value) : M session unit :=
  _set_iio_attr "voltage0_i" "test_mode" false v.

Definition rx_nyquist_zone_get : M session value :=
  _get_iio_attr "voltage0_i" "nyquist_zone" false.

Definition rx_nyquist_zone_set (v : value) : M session unit :=
  _set_iio_attr_str "voltage0_i" "nyquist_zone" false v.

Definition tx_channel_nco_frequencies_get : M session (list value) :=
  names <~ gets (fun s => _tx_fine_duc_channel_names (self s)) ;;
  _get_iio_attr_vec names "channel_nco_frequency" true.

Definition tx_channel_nco_frequencies_set (v : list value) : M session unit :=
  names <~ gets (fun s => _tx_fine_duc_channel_names (self s)) ;;
  _set_iio_attr_vec names "channel_nco_frequency" true v.

Definition tx_channel_nco_phases_get : M session (list value) :=
  names <~ gets (fun s => _tx_fine_duc_channel_names (self s)) ;;
  _get_iio_attr_vec names "channel_nco_phase" true.

Definition tx_channel_nco_phases_set (v : list value) : M session unit :=
  names <~ gets (fun s => _tx_fine_duc_channel_names (self s)) ;;
  _set_iio_attr_vec names "channel_nco_phase" true v.

Definition tx_main_nco_frequencies_get : M session (list value) :=
  names <~ gets (fun s => _tx_coarse_duc_channel_names (self s)) ;;
  _get_iio_attr_vec names "main_nco_frequency" true.

Definition tx_main_nco_frequencies_set (v : list value) : M session unit :=
  names <~ gets (fun s => _tx_coarse_duc_channel_names (self s)) ;;
  _set_iio_attr_vec names "main_nco_frequency" true v.

Definition tx_main_nco_phases_get : M session (list value) :=
  names <~ gets (fun s => _tx_coarse_duc_channel_names (self s)) ;;
  _get_iio_attr_vec names "main_nco_phase" true.

Definition tx_main_nco_phases_set (v : list value) : M session unit :=
  names <~ gets (fun s => _tx_coarse_duc_channel_names (self s)) ;;
  _set_iio_attr_vec names "main_nco_phase" true v.

Definition tx_main_ffh_frequency_get : M session value :=
  _get_iio_attr "voltage0_i" "main_ffh_frequency" true.

Definition tx_main_ffh_index_get : M session value :=
  _get_iio_attr "voltage0_i" "main_ffh_index" true.

Definition tx_main_ffh_frequency_set (v : value) : M session unit :=
  idx <~ tx_main_ffh_index_get ;;
  if eq_zero idx then raise (Exception ffh_error)
  else _set_iio_attr "voltage0_i" "main_ffh_frequency" true v.

Definition tx_main_ffh_index_set (v : value) : M session unit :=
  _set_iio_attr "voltage0_i" "main_ffh_index" true v.

Definition tx_main_ffh_mode_get : M session value :=
  _get_iio_attr "voltage0_i" "main_ffh_mode" true.

Definition tx_main_ffh_mode_set (v : value) : M session unit :=
  _set_iio_attr "voltage0_i" "main_ffh_mode" true v.

Definition loopback_mode_get : M session value :=
  _get_iio_dev_attr "loopback_mode".

Definition loopback_mode_set (v : value) : M session unit :=
  _set_iio_dev_attr "loopback_mode" v.

Definition rx_sampling_frequency : M session value :=
  _get_iio_attr "voltage0_i" "sampling_frequency" false.

Definition adc_frequency : M session value :=
  _get_iio_attr "voltage0_i" "adc_frequency" false.

Definition tx_sampling_frequency : M session value :=
  _get_iio_attr "voltage0_i" "sampling_frequency" true.

Definition dac_frequency : M session value :=
  _get_iio_attr "voltage0_i" "dac_frequency" true.

(** Every property access a caller can make. *)
Inductive facade_op : Type :=
| Get_path_map
| Get_rx_channel_nco_frequencies | Set_rx_channel_nco_frequencies (v : list value)
| Get_rx_channel_nco_phases | Set_rx_channel_nco_phases (v : list value)
| Get_rx_main_nco_frequencies | Set_rx_main_nco_frequencies (v : list value)
| Get_rx_main_nco_phases | Set_rx_main_nco_phases (v : list value)
| Get_rx_test_mode | Set_rx_test_mode (v : value)
| Get_rx_nyquist_zone | Set_rx_nyquist_zone (v : value)
| Get_tx_channel_nco_frequencies | Set_tx_channel_nco_frequencies (v : list value)
| Get_tx_channel_nco_phases | Set_tx_channel_nco_phases (v : list value)
| Get_tx_main_nco_frequencies | Set_tx_main_nco_frequencies (v : list value)
| Get_tx_main_nco_phases | Set_tx_main_nco_phases (v : list value)
| Get_tx_main_ffh_frequency | Set_tx_main_ffh_frequency (v : value)
| Get_tx_main_ffh_index | Set_tx_main_ffh_index (v : value)
| Get_tx_main_ffh_mode | Set_tx_main_ffh_mode (v : value)
| Get_loopback_mode | Set_loopback_mode (v : value)
| Get_rx_sampling_frequency
| Get_adc_frequency
| Get_tx_sampling_frequency
| Get_dac_frequency.

Definition as_val (m : M session value) : M session retval := v <~ m ;; ret (RVal v).
Definition as_vec (m : M session (list value)) : M session retval := v <~ m ;; ret (RVec v).
Definition as_none (m : M session unit) : M session retval := m ;;; ret RNone.

Definition run_op (op : facade_op) : M session retval :=
  match op with
  | Get_path_map => m <~ path_map_get ;; ret (RMap m)
  | Get_rx_channel_nco_frequencies => as_vec rx_channel_nco_frequencies_get
  | Set_rx_channel_nco_frequencies v => as_none (rx_channel_nco_frequencies_set v)
  | Get_rx_channel_nco_phases => as_vec rx_channel_nco_phases_get
  | Set_rx_channel_nco_phases v => as_none (rx_channel_nco_phases_set v)
  | Get_rx_main_nco_frequencies => as_vec rx_main_nco_frequencies_get
  | Set_rx_main_nco_frequencies v => as_none (rx_main_nco_frequencies_set v)
  | Get_rx_main_nco_phases => as_vec rx_main_nco_phases_get
  | Set_rx_main_nco_phases v => as_none (rx_main_nco_phases_set v)
  | Get_rx_test_mode => as_val rx_test_mode_get
  | Set_rx_test_mode v => as_none (rx_test_mode_set v)
  | Get_rx_nyquist_zone => as_val rx_nyquist_zone_get
  | Set_rx_nyquist_zone v => as_none (rx_nyquist_zone_set v)
  | Get_tx_channel_nco_frequencies => as_vec tx_channel_nco_frequencies_get
  | Set_tx_channel_nco_frequencies v => as_none (tx_channel_nco_frequencies_set v)
  | Get_tx_channel_nco_phases => as_vec tx_channel_nco_phases_get
  | Set_tx_channel_nco_phases v => as_none (tx_channel_nco_phases_set v)
  | Get_tx_main_nco_frequencies => as_vec tx_main_nco_frequencies_get
  | Set_tx_main_nco_frequencies v => as_none (tx_main_nco_frequencies_set v)
  | Get_tx_main_nco_phases => as_vec tx_main_nco_phases_get
  | Set_tx_main_nco_phases v => as_none (tx_main_nco_phases_set v)
  | Get_tx_main_ffh_frequency => as_val tx_main_ffh_frequency_get
  | Set_tx_main_ffh_frequency v => as_none (tx_main_ffh_frequency_set v)
  | Get_tx_main_ffh_index => as_val tx_main_ffh_index_get
  | Set_tx_main_ffh_index v => as_none (tx_main_ffh_index_set v)
  | Get_tx_main_ffh_mode => as_val tx_main_ffh_mode_get
  | Set_tx_main_ffh_mode v => as_none (tx_main_ffh_mode_set v)
  | Get_loopback_mode => as_val loopback_mode_get
  | Set_loopback_mode v => as_none (loopback_mode_set v)
  | Get_rx_sampling_frequency => as_val rx_sampling_frequency
  | Get_adc_frequency => as_val adc_frequency
  | Get_tx_sampling_frequency => as_val tx_sampling_frequency
  | Get_dac_frequency => as_val dac_frequency
  end.

End Facade.

Arguments self {device} s.
Arguments ctx {device} s.
Arguments trace {device} s.
Arguments Build_session {device} self ctx trace.
Arguments log {device}.
Arguments set_ctx {device}.
Arguments _get_iio_attr {device}.
Arguments _get_iio_attr_str {device}.
Arguments _set_iio_attr {device}.
Arguments _set_iio_attr_str {device}.
Arguments _get_iio_dev_attr {device}.
Arguments _set_iio_dev_attr {device}.
Arguments _get_iio_attr_vec {device}.
Arguments _set_iio_attr_vec {device}.
Arguments path_map_get {device}.
Arguments rx_channel_nco_frequencies_get {device}.
Arguments rx_channel_nco_frequencies_set {device}.
Arguments rx_channel_nco_phases_get {device}.
Arguments rx_channel_nco_phases_set {device}.
Arguments rx_main_nco_frequencies_get {device}.
Arguments rx_main_nco_frequencies_set {device}.
Arguments rx_main_nco_phases_get {device}.
Arguments rx_main_nco_phases_set {device}.
Arguments rx_test_mode_get {device}.
Arguments rx_test_mode_set {device}.
Arguments rx_nyquist_zone_get {device}.
Arguments rx_nyquist_zone_set {device}.
Arguments tx_channel_nco_frequencies_get {device}.
Arguments tx_channel_nco_frequencies_set {device}.
Arguments tx_channel_nco_phases_get {device}.
Arguments tx_channel_nco_phases_set {device}.
Arguments tx_main_nco_frequencies_get {device}.
Arguments tx_main_nco_frequencies_set {device}.
Arguments tx_main_nco_phases_get {device}.
Arguments tx_main_nco_phases_set {device}.
Arguments tx_main_ffh_frequency_get {device}.
Arguments tx_main_ffh_index_get {device}.
Arguments tx_main_ffh_frequency_set {device}.
Arguments tx_main_ffh_index_set {device}.
Arguments tx_main_ffh_mode_get {device}.
Arguments tx_main_ffh_mode_set {device}.
Arguments loopback_mode_get {device}.
Arguments loopback_mode_set {device}.
Arguments rx_sampling_frequency {device}.
Arguments adc_frequency {device}.
Arguments tx_sampling_frequency {device}.
Arguments dac_frequency {device}.
Arguments as_val {device}.
Arguments as_vec {device}.
Arguments as_none {device}.
Arguments run_op {device}.

(** A property access leaves the attributes of the object as they were. *)
Definition keeps_self {device A : Type} (m : M (session device) A) : Prop :=
  forall s, self (snd (m s)) = self s.

(** ** A device for the examples

    An attribute store: a channel attribute is found under the channel
    name, the direction and the attribute name, a device attribute under
    its name alone; reading an attribute that was never stored fails. *)

Definition sim_device : Type := list (string * bool * string * value).

Definition sim_key (channel_name : string) (output : bool) (attr_name : string)
    (e : string * bool * string * value) : bool :=
  let '(c, o, a, _) := e in
  String.eqb c channel_name && Bool.eqb o output && String.eqb a attr_name.

Definition sim_chan_read (d : sim_device) (channel_name : string) (output : bool)
    (attr_name : string) : result value :=
  match List.find (sim_key channel_name output attr_name) d with
  | Some (_, v) => Ok v
  | None => Raise DeviceError
  end.

Definition sim_chan_write (d : sim_device) (channel_name : string) (output : bool)
    (attr_name : string) (v : value) : result sim_device :=
  Ok ((channel_name, output, attr_name, v) :: d).

Definition sim_dev_read (d : sim_device) (attr_name : string) : result value :=
  sim_chan_read d "" false attr_name.

Definition sim_dev_write (d : sim_device) (attr_name : string) (v : value)
    : result sim_device :=
  sim_chan_write d "" false attr_name v.

(** ** Notions used to state the properties *)

(** The pure sort by a total key: what [sorted] returns when every key
    can be computed. *)
Definition sort_by {A : Type} (kf : A -> Z) (l : list A) : list A :=
  map snd (sort_keyed (map (fun x => (kf x, x)) l)).

(** The number a key function reads from a name, [0] when it raises. *)
Definition key_of (key : string -> result Z) (w : string) : Z :=
  match key w with
  | Ok k => k
  | Raise _ => 0
  end.

Definition adc_index : string -> Z := key_of ignoreadc.

Definition has_key (key : string -> result Z) (w : string) : Prop :=
  exists k, key w = Ok k.

Definition key_le {A : Type} (p q : Z * A) : Prop := fst p <= fst q.
Definition key_lt {A : Type} (p q : Z * A) : Prop := fst p < fst q.

Definition ascending {A : Type} (kf : A -> Z) (l : list A) : Prop :=
  StronglySorted (fun a b => kf a <= kf b) l.

(** Pairing by position: the i-th name of the first list, then the i-th
    name of the second. *)
Fixpoint zip_iq (tmpI tmpQ : list string) : list string :=
  match tmpI, tmpQ with
  | x :: tmpI', q :: tmpQ' => x :: q :: zip_iq tmpI' tmpQ'
  | _, _ => []
  end.

(** A numeric index with its in-phase and its quadrature name. *)
Record iq_pair : Type := {
  idx : Z;
  name_i : string;
  name_q : string
}.

Definition emit_pairs (ps : list iq_pair) : list string :=
  flat_map (fun p => [name_i p; name_q p]) ps.

(** Decimal digit strings and their value. *)
Definition is_digit (c : ascii) : bool :=
  let n := nat_of_ascii c in ((48 <=? n) && (n <=? 57))%nat.

Fixpoint all_digits (s : string) : bool :=
  match s with
  | EmptyString => true
  | String c s' => is_digit c && all_digits s'
  end.

Definition digits (s : string) : Prop := s <> EmptyString /\ all_digits s = true.

Fixpoint dec_from (acc : Z) (s : string) : Z :=
  match s with
  | EmptyString => acc
  | String c s' => dec_from (10 * acc + (Z.of_nat (nat_of_ascii c) - 48)) s'
  end.

Definition dec_value (s : string) : Z := dec_from 0 s.

(** A DDS channel name: the prefix [altvoltage], then digits. *)
Definition dds_name (w : string) : Prop :=
  exists ds, digits ds /\ w = ("altvoltage" ++ ds)%string.

(** The numeric suffix of a DDS channel name. *)
Definition alt_suffix (w : string) : Z := dec_value (PyStr.drop 10 w).

(** The three tokens of a label, when it splits on [->] into exactly
    three. *)
Definition label_tokens (l : string) : option (string * string * string) :=
  match PyStr.split l "->" with
  | [fddc; cddc; adc] => Some (fddc, cddc, adc)
  | _ => None
  end.

Definition labelled (ch : channel) : bool :=
  match label ch with
  | Some _ => true
  | None => false
  end.

(** The channel has a label and it splits into three tokens. *)
Definition well_labelled (ch : channel) : Prop :=
  exists l t, label ch = Some l /\ label_tokens l = Some t.

(** The channel has a label and it does not split into three tokens. *)
Definition ill_labelled (ch : channel) : Prop :=
  exists l, label ch = Some l /\ label_tokens l = None.

(** The label of the channel names the fine stage [fddc] of the coarse
    stage [cddc] of the converter [adc]. *)
Definition routed_to (adc cddc fddc : string) (ch : channel) : bool :=
  match label ch with
  | None => false
  | Some l =>
      match label_tokens l with
      | Some (f, c, a) => String.eqb adc a && String.eqb cddc c && String.eqb fddc f
      | None => false
      end
  end.

(** The identifiers, in list order, of the channels labelled with a given
    triple. *)
Definition ids_at (chs : list channel) (adc cddc fddc : string) : list string :=
  map _id (filter (routed_to adc cddc fddc) chs).

Definition leaf_or_empty (o : option (list string)) : list string :=
  match o with
  | Some ids => ids
  | None => []
  end.

(** A leaf after more identifiers have been appended to it; no leaf is
    created for no identifier. *)
Definition extend_leaf (o : option (list string)) (ids : list string)
    : option (list string) :=
  match ids with
  | [] => o
  | _ => Some (leaf_or_empty o ++ ids)
  end.

(** The converter key names a receive-side converter. *)
Definition is_adc (converter : string) : bool := PyStr.contains "ADC" converter.

(** The coarse groups of a path map, each with the key of its converter,
    in the order in which the constructor visits them. *)
Definition groups_of (paths : path_map) : list (string * fdc_map) :=
  flat_map (fun kv => map (fun g => (fst kv, snd g)) (snd kv)) paths.

(** The in-phase identifiers of a group. *)
Definition group_ids (g : string * fdc_map) : list string :=
  group_i_channels (snd g).

(** What a sequence of groups contributes: the first in-phase identifier
    of each group, and all in-phase identifiers of all groups. *)
Definition coarse_of (gs : list (string * fdc_map)) : list string :=
  flat_map (fun g => firstn 1 (group_ids g)) gs.

Definition fine_of (gs : list (string * fdc_map)) : list string :=
  flat_map group_ids gs.

Definition rx_groups (gs : list (string * fdc_map)) : list (string * fdc_map) :=
  filter (fun g => is_adc (fst g)) gs.

Definition tx_groups (gs : list (string * fdc_map)) : list (string * fdc_map) :=
  filter (fun g => negb (is_adc (fst g))) gs.

(** The object after the groups [gs] have all made their contribution. *)
Definition add_groups (gs : list (string * fdc_map)) (o : ad9081) : ad9081 :=
  {| _path_map := _path_map o;
     _rx_channel_names := _rx_channel_names o;
     _tx_channel_names := _tx_channel_names o;
     _dds_channel_names := _dds_channel_names o;
     _rx_coarse_ddc_channel_names :=
       _rx_coarse_ddc_channel_names o ++ coarse_of (rx_groups gs);
     _rx_fine_ddc_channel_names :=
       _rx_fine_ddc_channel_names o ++ fine_of (rx_groups gs);
     _tx_coarse_duc_channel_names :=
       _tx_coarse_duc_channel_names o ++ coarse_of (tx_groups gs);
     _tx_fine_duc_channel_names :=
       _tx_fine_duc_channel_names o ++ fine_of (tx_groups gs) |}.

(** No identifier of the group contains [_i]. *)
Definition no_i_channel (g : string * fdc_map) : Prop :=
  forall name, In name (group_channels (snd g)) -> has_i name = false.

(** The body of the loops of the constructor, on a group with its
    converter key. *)
Definition derive_step (g : string * fdc_map) : M ad9081 unit :=
  derive_group (fst g) (snd g).

(** The names of the data channels of index [ds], a string of digits. *)
Definition rx_i_name (ds : string) : string := ("voltage" ++ ds ++ "_i")%string.
Definition rx_q_name (ds : string) : string := ("voltage" ++ ds ++ "_q")%string.

Definition rx_pair_names (ds : string) : list string := [rx_i_name ds; rx_q_name ds].

(** The key function raises [ValueError] on the name. *)
Definition key_fails (key : string -> result Z) (w : string) : Prop :=
  key w = Raise ValueError.

(** All identifiers stored in a coarse-stage map and in a path map, in
    the order of the nesting. *)
Definition cdc_ids (cmap : cdc_map) : list string :=
  flat_map (fun kc => group_channels (snd kc)) cmap.

Definition path_ids (m : path_map) : list string :=
  flat_map (fun kv => cdc_ids (snd kv)) m.

(** A token of a label: a string in which [->] does not occur. *)
Definition no_arrow (tok : string) : Prop := PyStr.contains "->" tok = false.

(** The label that names the fine stage [fddc] of the coarse stage [cddc]
    of the converter [adc]. *)
Definition make_label (fddc cddc adc : string) : string :=
  (fddc ++ "->" ++ cddc ++ "->" ++ adc)%string.

(** The identifiers the constructor collects from the channel lists
    (lines 118-125). *)
Definition rx_data_ids (chs : list channel) : list string :=
  map _id (filter (fun ch => scan_element ch && negb (output ch)) chs).

Definition tx_data_ids (chs : list channel) : list string :=
  map _id (filter scan_element chs).

Definition dds_ids (chs : list channel) : list string :=
  map _id (filter (fun ch => negb (scan_element ch)) chs).

(** The constructor up to the first sort: the path map is stored and the
    identifiers are appended to the three name lists. *)
Definition collected (paths : path_map) (rxadc txdac : list channel) (o : ad9081)
    : ad9081 :=
  {| _path_map := paths;
     _rx_channel_names := _rx_channel_names o ++ rx_data_ids rxadc;
     _tx_channel_names := _tx_channel_names o ++ tx_data_ids txdac;
     _dds_channel_names := _dds_channel_names o ++ dds_ids txdac;
     _rx_coarse_ddc_channel_names := _rx_coarse_ddc_channel_names o;
     _rx_fine_ddc_channel_names := _rx_fine_ddc_channel_names o;
     _tx_coarse_duc_channel_names := _tx_coarse_duc_channel_names o;
     _tx_fine_duc_channel_names := _tx_fine_duc_channel_names o |}.

(** The property accesses that read. *)
Definition is_getter (op : facade_op) : bool :=
  match op with
  | Get_path_map
  | Get_rx_channel_nco_frequencies | Get_rx_channel_nco_phases
  | Get_rx_main_nco_frequencies | Get_rx_main_nco_phases
  | Get_rx_test_mode | Get_rx_nyquist_zone
  | Get_tx_channel_nco_frequencies | Get_tx_channel_nco_phases
  | Get_tx_main_nco_frequencies | Get_tx_main_nco_phases
  | Get_tx_main_ffh_frequency | Get_tx_main_ffh_index | Get_tx_main_ffh_mode
  | Get_loopback_mode
  | Get_rx_sampling_frequency | Get_adc_frequency
  | Get_tx_sampling_frequency | Get_dac_frequency => true
  | _ => false
  end.

(** The action leaves the device as it was and asks no write of it. *)
Definition reads_only {device A : Type} (m : M (session device) A) : Prop :=
  forall s,
    ctx (snd (m s)) = ctx s /\
    filter is_write (trace (snd (m s))) = filter is_write (trace s).

(** The strings of [l] that are not in [seen], each at its first
    occurrence. *)
Fixpoint first_seen (seen l : list string) : list string :=
  match l with
  | [] => []
  | x :: t =>
      if existsb (String.eqb x) seen then first_seen seen t
      else x :: first_seen (x :: seen) t
  end.

(** The converter token of the label of each channel that has a label of
    three tokens, in list order. *)
Definition converters_named (chs : list channel) : list string :=
  flat_map (fun ch =>
    match label ch with
    | None => []
    | Some l =>
        match label_tokens l with
        | Some (_, _, adc) => [adc]
        | None => []
        end
    end) chs.

(** * Properties *)

(** ** Evaluations on concrete inputs *)

Example sortconv_rx :
  _sortconv ["voltage1_q"; "voltage0_i"; "voltage1_i"; "voltage0_q"] false false
  = Ok ["voltage0_i"; "voltage0_q"; "voltage1_i"; "voltage1_q"].
Proof. reflexivity. Qed.

Example sortconv_dds :
  _sortconv ["altvoltage3"; "altvoltage0"; "altvoltage1"] false true
  = Ok ["altvoltage0"; "altvoltage1"; "altvoltage3"].
Proof. reflexivity. Qed.

Example sortconv_numeric_order :
  _sortconv ["voltage10_i"; "voltage10_q"; "voltage9_i"; "voltage9_q"] false false
  = Ok ["voltage9_i"; "voltage9_q"; "voltage10_i"; "voltage10_q"].
Proof. reflexivity. Qed.

Example split_label : PyStr.split "F1->C1->A1" "->" = ["F1"; "C1"; "A1"].
Proof. reflexivity. Qed.

Example split_edge :
  (PyStr.split "->a-->" "->", PyStr.split "" "->", PyStr.split "--->" "->",
   PyStr.split ">->-" "->", PyStr.split "a->b" "->")
  = ([""; "a-"; ""], [""], ["--"; ""], [">"; "-"], ["a"; "b"]).
Proof. reflexivity. Qed.

Example slice_examples :
  (PyStr.slice "voltage12_i" 7 (PyStr.find "voltage12_i" "_"),
   PyStr.slice "abc" 7 (-1), PyStr.slice "voltagexyz" 7 (-1), PyStr.slice "ab_" 7 2)
  = ("12", "", "xy", "").
Proof. reflexivity. Qed.

Example int_examples :
  (PyStr.int " 12 ", PyStr.int "-7", PyStr.int "1_0", PyStr.int "", PyStr.int "x",
   PyStr.int "1__0", PyStr.int "007", PyStr.int "+ 7", PyStr.int "_1", PyStr.int "1_",
   PyStr.int "-", PyStr.int "1 2", PyStr.int (String (ascii_of_nat 28) "1"),
   PyStr.int (String (ascii_of_nat 11) "4"))
  = (Ok 12, Ok (-7), Ok 10, Raise ValueError, Raise ValueError, Raise ValueError, Ok 7,
     Raise ValueError, Raise ValueError, Raise ValueError, Raise ValueError,
     Raise ValueError, Raise ValueError, Ok 4).
Proof. reflexivity. Qed.

Example init_example :
  __init__
    [ {| _id := "voltage1_i"; label := Some "FDDC1->CDDC0->ADC0"; scan_element := true; output := false |};
      {| _id := "voltage1_q"; label := Some "FDDC1->CDDC0->ADC0"; scan_element := true; output := false |};
      {| _id := "voltage0_i"; label := Some "FDDC0->CDDC0->ADC0"; scan_element := true; output := false |};
      {| _id := "voltage0_q"; label := Some "FDDC0->CDDC0->ADC0"; scan_element := true; output := false |};
      {| _id := "voltage0_i"; label := Some "FDUC0->CDUC0->DAC0"; scan_element := false; output := true |};
      {| _id := "timestamp"; label := None; scan_element := false; output := false |} ]
    [ {| _id := "voltage0_i"; label := None; scan_element := true; output := true |};
      {| _id := "voltage0_q"; label := None; scan_element := true; output := true |};
      {| _id := "altvoltage1"; label := None; scan_element := false; output := true |};
      {| _id := "altvoltage0"; label := None; scan_element := false; output := true |} ]
    class_ad9081
  = (Ok tt,
     {| _path_map :=
          [("ADC0", [("CDDC0", [("FDDC1", {| channels := ["voltage1_i"; "voltage1_q"] |});
                                ("FDDC0", {| channels := ["voltage0_i"; "voltage0_q"] |})])]);
           ("DAC0", [("CDUC0", [("FDUC0", {| channels := ["voltage0_i"] |})])])];
        _rx_channel_names := ["voltage0_i"; "voltage0_q"; "voltage1_i"; "voltage1_q"];
        _tx_channel_names := ["voltage0_i"; "voltage0_q"];
        _dds_channel_names := ["altvoltage0"; "altvoltage1"];
        _rx_coarse_ddc_channel_names := ["voltage1_i"];
        _rx_fine_ddc_channel_names := ["voltage1_i"; "voltage0_i"];
        _tx_coarse_duc_channel_names := ["voltage0_i"];
        _tx_fine_duc_channel_names := ["voltage0_i"] |}).
Proof. reflexivity. Qed.

(** ** The result monad *)

Lemma mapM_ok {A B : Type} (f : A -> result B) (g : A -> B) (l : list A) :
  Forall (fun x => f x = Ok (g x)) l -> mapM f l = Ok (map g l).
Proof.
  induction 1 as [|x t Hx _ IH]; simpl.
  - reflexivity.
  - rewrite Hx, IH. reflexivity.
Qed.

(** ** Facts about the stable sort *)

Section SortFacts.
Context {A : Type}.
Implicit Types (l : list (Z * A)) (k : Z) (x : A).

Lemma insert_key_perm k x l : Permutation ((k, x) :: l) (insert_key k x l).
Proof.
  induction l as [|[k' y] t IH]; simpl.
  - apply Permutation_refl.
  - destruct (k <=? k').
    + apply Permutation_refl.
    + eapply perm_trans; [apply perm_swap|]. apply perm_skip, IH.
Qed.

Lemma sort_keyed_perm l : Permutation l (sort_keyed l).
Proof.
  induction l as [|[k x] t IH]; simpl.
  - constructor.
  - eapply perm_trans; [apply perm_skip, IH|]. apply insert_key_perm.
Qed.

Lemma insert_key_sorted k x l :
  StronglySorted key_le l -> StronglySorted key_le (insert_key k x l).
Proof.
  induction 1 as [|[k' y] t Hs IH Hall]; simpl.
  - repeat constructor.
  - destruct (Z.leb_spec k k') as [Hle|Hgt].
    + constructor; [constructor; assumption|].
      constructor; [exact Hle|].
      eapply Forall_impl; [|exact Hall].
      intros p Hp. unfold key_le in *. simpl in *. lia.
    + constructor; [exact IH|].
      eapply Permutation_Forall; [apply insert_key_perm|].
      constructor; [|exact Hall]. unfold key_le; simpl; lia.
Qed.

Lemma sort_keyed_sorted l : StronglySorted key_le (sort_keyed l).
Proof.
  induction l as [|[k x] t IH]; simpl.
  - constructor.
  - apply insert_key_sorted, IH.
Qed.

Lemma sorted_le_lt l :
  NoDup (map fst l) -> StronglySorted key_le l -> StronglySorted key_lt l.
Proof.
  intros Hnd Hs. induction Hs as [|p t Hs IH Hall]; simpl in *.
  - constructor.
  - inversion Hnd as [|? ? Hnotin Hnd']; subst.
    constructor; [apply IH, Hnd'|].
    rewrite Forall_forall in *. intros q Hq.
    specialize (Hall q Hq). unfold key_le, key_lt in *.
    assert (fst p <> fst q) by (intros E; apply Hnotin; rewrite E; apply in_map, Hq).
    lia.
Qed.

Lemma sorted_lt_unique l1 l2 :
  StronglySorted key_lt l1 -> StronglySorted key_lt l2 ->
  Permutation l1 l2 -> l1 = l2.
Proof.
  intros H1. revert l2.
  induction H1 as [|p t1 Hs1 IH Hall1]; intros l2 H2 Hp.
  - apply Permutation_nil in Hp. congruence.
  - destruct H2 as [|q t2 Hs2 Hall2].
    + apply Permutation_sym, Permutation_nil in Hp. discriminate.
    + assert (Epq : p = q).
      { assert (Hin1 : In p (q :: t2)) by (eapply Permutation_in; [exact Hp|left; reflexivity]).
        assert (Hin2 : In q (p :: t1))
          by (eapply Permutation_in; [apply Permutation_sym, Hp|left; reflexivity]).
        destruct Hin1 as [E|Hin1]; [congruence|].
        destruct Hin2 as [E|Hin2]; [congruence|].
        rewrite Forall_forall in Hall1, Hall2.
        specialize (Hall1 q Hin2). specialize (Hall2 p Hin1).
        unfold key_lt in *. lia. }
      subst q. f_equal. apply IH; [exact Hs2|].
      eapply Permutation_cons_inv, Hp.
Qed.

Lemma sort_keyed_unique l1 l2 :
  NoDup (map fst l1) -> Permutation l1 l2 -> sort_keyed l1 = sort_keyed l2.
Proof.
  intros Hnd Hp.
  assert (Hp1 := sort_keyed_perm l1). assert (Hp2 := sort_keyed_perm l2).
  apply sorted_lt_unique.
  - apply sorted_le_lt; [|apply sort_keyed_sorted].
    eapply Permutation_NoDup; [|exact Hnd]. apply Permutation_map, Hp1.
  - apply sorted_le_lt; [|apply sort_keyed_sorted].
    eapply Permutation_NoDup; [|exact Hnd].
    apply Permutation_map. eapply perm_trans; [exact Hp|exact Hp2].
  - eapply perm_trans; [apply Permutation_sym, Hp1|].
    eapply perm_trans; [exact Hp|exact Hp2].
Qed.

Lemma sort_by_perm (kf : A -> Z) (l : list A) : Permutation l (sort_by kf l).
Proof.
  unfold sort_by.
  assert (E : l = map snd (map (fun x => (kf x, x)) l)).
  { rewrite map_map. simpl. symmetry. apply map_id. }
  rewrite E at 1. apply Permutation_map, sort_keyed_perm.
Qed.

Lemma keyed_map_snd (kf : A -> Z) l :
  Forall (fun p => fst p = kf (snd p)) l ->
  StronglySorted key_le l ->
  StronglySorted (fun a b => kf a <= kf b) (map snd l).
Proof.
  intros Hk Hs. induction Hs as [|p t Hs IH Hall]; simpl.
  - constructor.
  - inversion Hk as [|? ? Hp Hk']; subst.
    constructor; [apply IH, Hk'|].
    rewrite Forall_forall in *. intros b Hb.
    apply in_map_iff in Hb. destruct Hb as [q [<- Hq]].
    specialize (Hall q Hq). specialize (Hk' q Hq).
    unfold key_le in Hall. rewrite <- Hp, <- Hk'. exact Hall.
Qed.

Lemma sort_by_ascending (kf : A -> Z) (l : list A) : ascending kf (sort_by kf l).
Proof.
  unfold ascending, sort_by. apply keyed_map_snd.
  - eapply Permutation_Forall; [apply sort_keyed_perm|].
    rewrite Forall_forall. intros p Hp.
    apply in_map_iff in Hp. destruct Hp as [x [<- _]]. reflexivity.
  - apply sort_keyed_sorted.
Qed.

Lemma sort_by_unique (kf : A -> Z) (l l' : list A) :
  NoDup (map kf l) -> Permutation l l' -> sort_by kf l = sort_by kf l'.
Proof.
  intros Hnd Hp. unfold sort_by. f_equal. apply sort_keyed_unique.
  - rewrite map_map. simpl. exact Hnd.
  - apply Permutation_map, Hp.
Qed.

Lemma sort_by_ext (kf kg : A -> Z) (l : list A) :
  Forall (fun x => kf x = kg x) l -> sort_by kf l = sort_by kg l.
Proof.
  intros H. unfold sort_by. do 2 f_equal.
  apply map_ext_in. rewrite Forall_forall in H.
  intros x Hx. rewrite (H x Hx). reflexivity.
Qed.

Lemma sort_by_length (kf : A -> Z) (l : list A) :
  List.length (sort_by kf l) = List.length l.
Proof. symmetry. apply Permutation_length, sort_by_perm. Qed.

End SortFacts.

Lemma sort_keyed_map {A B : Type} (g : A -> B) (l : list (Z * A)) :
  sort_keyed (map (fun p => (fst p, g (snd p))) l)
  = map (fun p => (fst p, g (snd p))) (sort_keyed l).
Proof.
  assert (Hins : forall k x t,
    insert_key k (g x) (map (fun p => (fst p, g (snd p))) t)
    = map (fun p => (fst p, g (snd p))) (insert_key k x t)).
  { intros k x t. induction t as [|[k' y] t IH]; simpl.
    - reflexivity.
    - destruct (k <=? k'); simpl; [reflexivity|]. rewrite IH. reflexivity. }
  induction l as [|[k x] t IH]; simpl.
  - reflexivity.
  - rewrite IH. apply Hins.
Qed.

Lemma sort_by_map {A B : Type} (g : A -> B) (kf : B -> Z) (l : list A) :
  sort_by kf (map g l) = map g (sort_by (fun x => kf (g x)) l).
Proof.
  unfold sort_by. rewrite map_map.
  change (map (fun x => (kf (g x), g x)) l)
    with (map (fun x => (fun p => (fst p, g (snd p))) ((fun x => (kf (g x), x)) x)) l).
  rewrite <- (map_map (fun x => (kf (g x), x)) (fun p => (fst p, g (snd p)))).
  rewrite sort_keyed_map, !map_map. reflexivity.
Qed.

Lemma sorted_ok {A : Type} (key : A -> result Z) (kf : A -> Z) (l : list A) :
  Forall (fun x => key x = Ok (kf x)) l -> sorted l key = Ok (sort_by kf l).
Proof.
  intros H. unfold sorted, decorate.
  rewrite (mapM_ok _ (fun x => (kf x, x))).
  - reflexivity.
  - eapply Forall_impl; [|exact H]. intros x Hx. simpl. rewrite Hx. reflexivity.
Qed.

Lemma has_key_key_of (key : string -> result Z) (w : string) :
  has_key key w -> key w = Ok (key_of key w).
Proof. intros [k Hk]. unfold key_of. rewrite Hk. reflexivity. Qed.

Lemma Forall_filter {A : Type} (P : A -> Prop) (f : A -> bool) (l : list A) :
  Forall P l -> Forall P (filter f l).
Proof.
  rewrite !Forall_forall. intros H x Hx. apply filter_In in Hx. apply H, Hx.
Qed.

Lemma filter_perm {A : Type} (f : A -> bool) (l l' : list A) :
  Permutation l l' -> Permutation (filter f l) (filter f l').
Proof.
  induction 1 as [|x l l' _ IH|x y l|l l' l'' _ IH1 _ IH2]; simpl.
  - constructor.
  - destruct (f x); [apply perm_skip|]; exact IH.
  - destruct (f x), (f y); try apply Permutation_refl. apply perm_swap.
  - eapply perm_trans; eassumption.
Qed.

(** ** The pairing loop of [_sortconv] *)

Lemma nth_error_skipn_hd {A : Type} (l : list A) (i : nat) :
  nth_error l i = hd_error (skipn i l).
Proof.
  revert l. induction i as [|i IH]; intros [|x t]; simpl; try reflexivity. apply IH.
Qed.

Lemma skipn_S_tl {A : Type} (l : list A) (i : nat) : skipn (S i) l = tl (skipn i l).
Proof.
  revert l. induction i as [|i IH]; intros [|x t]; try reflexivity.
  change (skipn (S (S i)) (x :: t)) with (skipn (S i) t).
  change (skipn (S i) (x :: t)) with (skipn i t). apply IH.
Qed.

Lemma sortconv_loop_noq (tmpI tmpQ : list string) (i : nat) (out : list string) :
  sortconv_loop true tmpI tmpQ i out = Ok (out ++ tmpI).
Proof.
  revert i out. induction tmpI as [|x rest IH]; intros i out; simpl.
  - rewrite app_nil_r. reflexivity.
  - rewrite IH, <- app_assoc. reflexivity.
Qed.

Lemma sortconv_loop_pairs (tmpI tmpQ : list string) (i : nat) (out : list string) :
  sortconv_loop false tmpI tmpQ i out
  = if (List.length tmpI <=? List.length (skipn i tmpQ))%nat
    then Ok (out ++ zip_iq tmpI (skipn i tmpQ))
    else Raise IndexError.
Proof.
  revert i out. induction tmpI as [|x rest IH]; intros i out.
  - simpl. rewrite app_nil_r. reflexivity.
  - cbn [sortconv_loop]. rewrite nth_error_skipn_hd.
    specialize (IH (S i) ((out ++ [x]) ++ [hd x (skipn i tmpQ)])).
    rewrite skipn_S_tl in IH.
    destruct (skipn i tmpQ) as [|q rest'] eqn:E; simpl.
    + reflexivity.
    + simpl in IH. rewrite IH.
      destruct (List.length rest <=? List.length rest')%nat.
      * rewrite <- !app_assoc. reflexivity.
      * reflexivity.
Qed.

Lemma zip_iq_pairs (ps : list iq_pair) :
  zip_iq (map name_i ps) (map name_q ps) = emit_pairs ps.
Proof.
  induction ps as [|p t IH]; simpl; [reflexivity|]. rewrite IH. reflexivity.
Qed.

(** ** Decimal literals *)

Lemma is_digit_digit_of (c : ascii) :
  is_digit c = true -> PyStr.digit_of c = Some (Z.of_nat (nat_of_ascii c) - 48).
Proof.
  unfold is_digit, PyStr.digit_of. intros H.
  apply andb_true_iff in H. destruct H as [H1 H2].
  apply Nat.leb_le in H1. apply Nat.leb_le in H2.
  replace (48 <=? Z.of_nat (nat_of_ascii c)) with true by (symmetry; apply Z.leb_le; lia).
  replace (Z.of_nat (nat_of_ascii c) <=? 57) with true by (symmetry; apply Z.leb_le; lia).
  reflexivity.
Qed.

Lemma is_digit_not_space (c : ascii) : is_digit c = true -> PyStr.is_space c = false.
Proof.
  unfold is_digit, PyStr.is_space. intros H.
  apply andb_true_iff in H. destruct H as [H1 H2].
  apply Nat.leb_le in H1. apply Nat.leb_le in H2.
  replace (nat_of_ascii c <=? 13)%nat with false by (symmetry; apply Nat.leb_gt; lia).
  replace (nat_of_ascii c =? 32)%nat with false by (symmetry; apply Nat.eqb_neq; lia).
  rewrite andb_false_r. reflexivity.
Qed.

Lemma is_digit_not_sign (c : ascii) :
  is_digit c = true -> Ascii.eqb c "-" = false /\ Ascii.eqb c "+" = false.
Proof.
  intros H. split.
  - destruct (Ascii.eqb_spec c "-") as [E|]; [subst; discriminate H|reflexivity].
  - destruct (Ascii.eqb_spec c "+") as [E|]; [subst; discriminate H|reflexivity].
Qed.

Lemma int_digits_all (s : string) (acc : Z) (prev : bool) :
  all_digits s = true -> prev = true \/ s <> EmptyString ->
  PyStr.int_digits acc prev s = Some (dec_from acc s).
Proof.
  revert acc prev. induction s as [|c s IH]; intros acc prev Hd Hne; simpl.
  - destruct Hne as [->|Hne]; [reflexivity|congruence].
  - simpl in Hd. apply andb_true_iff in Hd. destruct Hd as [Hc Hs].
    rewrite (is_digit_digit_of c Hc). apply IH; [exact Hs|left; reflexivity].
Qed.

Lemma lstrip_digits (s : string) : all_digits s = true -> PyStr.lstrip s = s.
Proof.
  destruct s as [|c s]; simpl; [reflexivity|]. intros H.
  apply andb_true_iff in H. destruct H as [Hc _].
  rewrite (is_digit_not_space c Hc). reflexivity.
Qed.

Lemma rstrip_digits (s : string) : all_digits s = true -> PyStr.rstrip s = s.
Proof.
  induction s as [|c s IH]; simpl; [reflexivity|]. intros H.
  apply andb_true_iff in H. destruct H as [Hc Hs].
  rewrite (IH Hs), (is_digit_not_space c Hc). destruct s; reflexivity.
Qed.

Lemma int_of_digits (ds : string) : digits ds -> PyStr.int ds = Ok (dec_value ds).
Proof.
  intros [Hne Hd]. unfold PyStr.int.
  rewrite (lstrip_digits ds Hd), (rstrip_digits ds Hd).
  destruct ds as [|c s]; [congruence|].
  assert (Hc : is_digit c = true).
  { simpl in Hd. apply andb_true_iff in Hd. apply Hd. }
  destruct (is_digit_not_sign c Hc) as [-> ->].
  rewrite (int_digits_all (String c s) 0 false Hd) by (right; discriminate).
  reflexivity.
Qed.

Lemma clip_in_range (len i : Z) : 0 <= i <= len -> PyStr.clip len i = i.
Proof.
  intros H. unfold PyStr.clip.
  destruct (Z.ltb_spec i 0); [lia|].
  destruct (Z.ltb_spec i 0); [lia|].
  destruct (Z.ltb_spec len i); lia.
Qed.

Lemma ignorealt_dds (ds : string) :
  digits ds -> ignorealt ("altvoltage" ++ ds) = Ok (dec_value ds).
Proof.
  intros H. unfold ignorealt, PyStr.slice_from.
  rewrite clip_in_range.
  - change (PyStr.drop (Z.to_nat (Z.of_nat (String.length "altvoltage")))
              ("altvoltage" ++ ds)%string) with ds.
    apply int_of_digits, H.
  - change (String.length ("altvoltage" ++ ds)%string)
      with (10 + String.length ds)%nat.
    change (Z.of_nat (String.length "altvoltage")) with 10. lia.
Qed.

Lemma dds_name_key (w : string) : dds_name w -> ignorealt w = Ok (alt_suffix w).
Proof.
  intros [ds [Hd ->]]. rewrite (ignorealt_dds ds Hd). reflexivity.
Qed.

(** ** The DDS sort *)

(** C8: on names [altvoltage<digits>], [_sortconv] with [dds=True]
    returns the same names, each as often as it was given, in ascending
    order of the numeric suffix, without pairing; the three names
    altvoltage3, altvoltage0, altvoltage1, in any order, come out as
    altvoltage0, altvoltage1, altvoltage3. *)
Theorem sortconv_dds_ascending (l : list string) (noq : bool) :
  (Forall dds_name l ->
   exists out,
     _sortconv l noq true = Ok out /\
     Permutation l out /\
     ascending alt_suffix out) /\
  (Permutation l ["altvoltage3"; "altvoltage0"; "altvoltage1"] ->
   _sortconv l noq true = Ok ["altvoltage0"; "altvoltage1"; "altvoltage3"]).
Proof.
  assert (Hrun : Forall dds_name l -> _sortconv l noq true = Ok (sort_by alt_suffix l)).
  { intros Hl.
    assert (Hk : Forall (fun w => ignorealt w = Ok (alt_suffix w)) l).
    { eapply Forall_impl; [|exact Hl]. apply dds_name_key. }
    unfold _sortconv.
    rewrite (sorted_ok ignorealt alt_suffix l Hk).
    rewrite (sorted_ok ignorealt alt_suffix (filter has_q l)) by (apply Forall_filter, Hk).
    simpl. apply sortconv_loop_noq. }
  split.
  - intros Hl. exists (sort_by alt_suffix l). split; [apply Hrun, Hl|]. split.
    + apply sort_by_perm.
    + apply sort_by_ascending.
  - intros Hp. rewrite Hrun.
    + rewrite <- (sort_by_unique alt_suffix
                    ["altvoltage3"; "altvoltage0"; "altvoltage1"] l).
      * reflexivity.
      * repeat constructor; simpl; intuition discriminate.
      * apply Permutation_sym, Hp.
    + eapply Permutation_Forall; [apply Permutation_sym, Hp|].
      repeat constructor.
      * exists "3". repeat split. discriminate.
      * exists "0". repeat split. discriminate.
      * exists "1". repeat split. discriminate.
Qed.

Lemma sortconv_dds_ascending_witness :
  Forall dds_name ["altvoltage1"; "altvoltage3"; "altvoltage0"] /\
  (exists out,
     _sortconv ["altvoltage1"; "altvoltage3"; "altvoltage0"] false true = Ok out /\
     Permutation ["altvoltage1"; "altvoltage3"; "altvoltage0"] out /\
     ascending alt_suffix out) /\
  _sortconv ["altvoltage1"; "altvoltage3"; "altvoltage0"] false true
  = Ok ["altvoltage0"; "altvoltage1"; "altvoltage3"].
Proof.
  assert (H : Forall dds_name ["altvoltage1"; "altvoltage3"; "altvoltage0"]).
  { repeat constructor.
    - exists "1". repeat split. discriminate.
    - exists "3". repeat split. discriminate.
    - exists "0". repeat split. discriminate. }
  destruct (sortconv_dds_ascending ["altvoltage1"; "altvoltage3"; "altvoltage0"] false)
    as [Hgen Hex].
  split; [exact H|]. split; [exact (Hgen H)|].
  apply Hex.
  apply (perm_trans (l' := ["altvoltage3"; "altvoltage1"; "altvoltage0"])).
  - apply perm_swap.
  - apply perm_skip, perm_swap.
Defined.

(** ** The data-channel sort *)

Lemma ascending_strict {A : Type} (kf : A -> Z) (l : list A) :
  ascending kf l -> NoDup (map kf l) -> StronglySorted Z.lt (map kf l).
Proof.
  intros Hs. induction Hs as [|a t Hs IH Hall]; simpl; intros Hnd.
  - constructor.
  - inversion Hnd as [|? ? Hnotin Hnd']; subst.
    constructor; [apply IH, Hnd'|].
    rewrite Forall_forall in *. intros k Hk.
    apply in_map_iff in Hk. destruct Hk as [b [<- Hb]].
    specialize (Hall b Hb).
    assert (kf a <> kf b) by (intros E; apply Hnotin; rewrite E; apply in_map, Hb).
    lia.
Qed.

Lemma sorted_partition (nm : iq_pair -> string) (part : list string) (ps : list iq_pair) :
  Permutation part (map nm ps) ->
  Forall (fun p => ignoreadc (nm p) = Ok (idx p)) ps ->
  NoDup (map idx ps) ->
  sorted part ignoreadc = Ok (map nm (sort_by idx ps)).
Proof.
  intros Hp Hk Hnd.
  assert (Hidx : Forall (fun p => adc_index (nm p) = idx p) ps).
  { eapply Forall_impl; [|exact Hk]. intros p E. unfold adc_index, key_of.
    rewrite E. reflexivity. }
  assert (Hkeys : Forall (fun x => ignoreadc x = Ok (adc_index x)) part).
  { eapply Permutation_Forall; [apply Permutation_sym, Hp|].
    rewrite Forall_forall in *. intros x Hx.
    apply in_map_iff in Hx. destruct Hx as [p [<- Hin]].
    apply has_key_key_of. exists (idx p). apply Hk, Hin. }
  rewrite (sorted_ok ignoreadc adc_index part Hkeys). f_equal.
  rewrite <- (sort_by_unique adc_index (map nm ps) part).
  - rewrite sort_by_map. f_equal. apply sort_by_ext, Hidx.
  - rewrite map_map.
    rewrite (map_ext_in (fun p => adc_index (nm p)) idx); [exact Hnd|].
    rewrite Forall_forall in Hidx. exact Hidx.
  - apply Permutation_sym, Hp.
Qed.

Lemma sortconv_pairs (chans : list string) (ps : list iq_pair) :
  Permutation (filter has_i chans) (map name_i ps) ->
  Permutation (filter has_q chans) (map name_q ps) ->
  Forall (fun p => ignoreadc (name_i p) = Ok (idx p) /\
                   ignoreadc (name_q p) = Ok (idx p)) ps ->
  NoDup (map idx ps) ->
  _sortconv chans false false = Ok (emit_pairs (sort_by idx ps)).
Proof.
  intros HI HQ Hk Hnd. unfold _sortconv.
  rewrite (sorted_partition name_i _ ps HI)
    by first [exact Hnd | eapply Forall_impl; [|exact Hk]; intros p H; apply H].
  rewrite (sorted_partition name_q _ ps HQ)
    by first [exact Hnd | eapply Forall_impl; [|exact Hk]; intros p H; apply H].
  simpl. rewrite sortconv_loop_pairs. simpl.
  rewrite !length_map, Nat.leb_refl, zip_iq_pairs. reflexivity.
Qed.

(** C1: when the [_i] names and the [_q] names of the input are, index
    by index, the two names of the pairs [ps], and no index occurs twice,
    [_sortconv] with the default flags returns, for the indices in
    ascending order, the [_i] name then the [_q] name of each index, and
    every permutation of the input gives the same output.  The names
    voltage0_i, voltage0_q, voltage1_i, voltage1_q in any order give
    exactly that list. *)
Theorem sortconv_interleaves (chans : list string) (ps : list iq_pair) :
  (Permutation (filter has_i chans) (map name_i ps) ->
   Permutation (filter has_q chans) (map name_q ps) ->
   Forall (fun p => ignoreadc (name_i p) = Ok (idx p) /\
                    ignoreadc (name_q p) = Ok (idx p)) ps ->
   NoDup (map idx ps) ->
   exists sorted_ps,
     Permutation ps sorted_ps /\
     StronglySorted Z.lt (map idx sorted_ps) /\
     _sortconv chans false false = Ok (emit_pairs sorted_ps) /\
     (forall chans', Permutation chans chans' ->
        _sortconv chans' false false = Ok (emit_pairs sorted_ps))) /\
  (Permutation chans ["voltage0_i"; "voltage0_q"; "voltage1_i"; "voltage1_q"] ->
   _sortconv chans false false
   = Ok ["voltage0_i"; "voltage0_q"; "voltage1_i"; "voltage1_q"]).
Proof.
  split.
  - intros HI HQ Hk Hnd.
    assert (Hperm : forall chans', Permutation chans chans' ->
              _sortconv chans' false false = Ok (emit_pairs (sort_by idx ps))).
    { intros chans' Hp. apply sortconv_pairs; try assumption.
      - eapply perm_trans; [apply filter_perm, Permutation_sym, Hp|exact HI].
      - eapply perm_trans; [apply filter_perm, Permutation_sym, Hp|exact HQ]. }
    exists (sort_by idx ps). split; [apply sort_by_perm|]. split.
    + apply ascending_strict; [apply sort_by_ascending|].
      eapply Permutation_NoDup; [|exact Hnd]. apply Permutation_map, sort_by_perm.
    + split; [apply Hperm, Permutation_refl|exact Hperm].
  - intros Hp.
    rewrite (sortconv_pairs chans
               [ {| idx := 0; name_i := "voltage0_i"; name_q := "voltage0_q" |};
                 {| idx := 1; name_i := "voltage1_i"; name_q := "voltage1_q" |} ]).
    + reflexivity.
    + apply (filter_perm has_i) in Hp. exact Hp.
    + apply (filter_perm has_q) in Hp. exact Hp.
    + repeat constructor.
    + repeat constructor; simpl; intuition discriminate.
Qed.

Lemma sortconv_interleaves_witness :
  (exists sorted_ps,
     Permutation
       [ {| idx := 1; name_i := "voltage1_i"; name_q := "voltage1_q" |};
         {| idx := 0; name_i := "voltage0_i"; name_q := "voltage0_q" |} ] sorted_ps /\
     StronglySorted Z.lt (map idx sorted_ps) /\
     _sortconv ["voltage1_q"; "voltage0_i"; "voltage1_i"; "voltage0_q"] false false
     = Ok (emit_pairs sorted_ps) /\
     (forall chans',
        Permutation ["voltage1_q"; "voltage0_i"; "voltage1_i"; "voltage0_q"] chans' ->
        _sortconv chans' false false = Ok (emit_pairs sorted_ps))) /\
  _sortconv ["voltage0_q"; "voltage0_i"; "voltage1_i"; "voltage1_q"] false false
  = Ok ["voltage0_i"; "voltage0_q"; "voltage1_i"; "voltage1_q"].
Proof.
  split.
  - apply (sortconv_interleaves
             ["voltage1_q"; "voltage0_i"; "voltage1_i"; "voltage0_q"]
             [ {| idx := 1; name_i := "voltage1_i"; name_q := "voltage1_q" |};
               {| idx := 0; name_i := "voltage0_i"; name_q := "voltage0_q" |} ]).
    + apply perm_swap.
    + apply Permutation_refl.
    + repeat constructor.
    + repeat constructor; simpl; intuition discriminate.
  - apply (sortconv_interleaves
             ["voltage0_q"; "voltage0_i"; "voltage1_i"; "voltage1_q"] []).
    apply perm_swap.
Defined.

(** ** Pairing by position *)

Lemma zip_iq_firstn (tmpI tmpQ : list string) :
  zip_iq tmpI tmpQ = zip_iq tmpI (firstn (List.length tmpI) tmpQ).
Proof.
  revert tmpQ. induction tmpI as [|x t IH]; intros [|q tq]; simpl; try reflexivity.
  rewrite <- IH. reflexivity.
Qed.

(** C10, as the code has it: when the index of every name of both
    partitions can be read, the sorted [_i] names are paired by position
    with the sorted [_q] names, whatever their indices; with more [_i]
    names than [_q] names the call raises [IndexError]; otherwise the
    [_q] names beyond the number of [_i] names do not reach the output. *)
Theorem sortconv_pairs_by_position (chans : list string) :
  Forall (has_key ignoreadc) (filter has_i chans) ->
  Forall (has_key ignoreadc) (filter has_q chans) ->
  exists tmpI tmpQ,
    Permutation (filter has_i chans) tmpI /\ ascending adc_index tmpI /\
    Permutation (filter has_q chans) tmpQ /\ ascending adc_index tmpQ /\
    ((List.length tmpQ < List.length tmpI)%nat ->
     _sortconv chans false false = Raise IndexError) /\
    ((List.length tmpI <= List.length tmpQ)%nat ->
     _sortconv chans false false
     = Ok (zip_iq tmpI (firstn (List.length tmpI) tmpQ))).
Proof.
  intros HI HQ.
  assert (EI : sorted (filter has_i chans) ignoreadc
               = Ok (sort_by adc_index (filter has_i chans))).
  { apply sorted_ok. eapply Forall_impl; [|exact HI]. apply has_key_key_of. }
  assert (EQ : sorted (filter has_q chans) ignoreadc
               = Ok (sort_by adc_index (filter has_q chans))).
  { apply sorted_ok. eapply Forall_impl; [|exact HQ]. apply has_key_key_of. }
  exists (sort_by adc_index (filter has_i chans)),
         (sort_by adc_index (filter has_q chans)).
  repeat split; try apply sort_by_perm; try apply sort_by_ascending.
  - intros Hlen. unfold _sortconv. rewrite EI, EQ. simpl.
    rewrite sortconv_loop_pairs. simpl.
    apply Nat.leb_gt in Hlen. rewrite Hlen. reflexivity.
  - intros Hlen. unfold _sortconv. rewrite EI, EQ. simpl.
    rewrite sortconv_loop_pairs. simpl.
    apply Nat.leb_le in Hlen. rewrite Hlen, <- zip_iq_firstn. reflexivity.
Qed.

Lemma sortconv_pairs_by_position_witness :
  exists tmpI tmpQ,
    Permutation (filter has_i ["voltage1_i"; "voltage2_q"; "voltage0_q"]) tmpI /\
    ascending adc_index tmpI /\
    Permutation (filter has_q ["voltage1_i"; "voltage2_q"; "voltage0_q"]) tmpQ /\
    ascending adc_index tmpQ /\
    ((List.length tmpQ < List.length tmpI)%nat ->
     _sortconv ["voltage1_i"; "voltage2_q"; "voltage0_q"] false false = Raise IndexError) /\
    ((List.length tmpI <= List.length tmpQ)%nat ->
     _sortconv ["voltage1_i"; "voltage2_q"; "voltage0_q"] false false
     = Ok (zip_iq tmpI (firstn (List.length tmpI) tmpQ))).
Proof.
  apply (sortconv_pairs_by_position ["voltage1_i"; "voltage2_q"; "voltage0_q"]).
  - repeat constructor. exists 1. reflexivity.
  - repeat constructor; [exists 2|exists 0]; reflexivity.
Defined.

(** C10 as stated fails: here the [_i] partition is the longer one and
    the call ends with [ValueError], raised by the key function inside
    [sorted], not with [IndexError]. *)
Lemma sortconv_longer_i_not_index_error :
  (List.length (filter has_q ["voltagex_i"])
   < List.length (filter has_i ["voltagex_i"]))%nat /\
  _sortconv ["voltagex_i"] false false = Raise ValueError /\
  _sortconv ["voltagex_i"] false false <> Raise IndexError.
Proof.
  split; [simpl; lia|]. split; [reflexivity|]. discriminate.
Qed.

Example sortconv_excess_q :
  _sortconv ["voltage1_i"; "voltage2_q"; "voltage0_q"] false false
  = Ok ["voltage1_i"; "voltage0_q"].
Proof. reflexivity. Qed.

Example sortconv_missing_q :
  _sortconv ["voltage0_i"; "voltage1_i"; "voltage0_q"] false false = Raise IndexError.
Proof. reflexivity. Qed.

(** ** Dictionaries *)

Lemma dict_get_set_same {V : Type} (d : dict V) (k : string) (v : V) :
  dict_get (dict_set d k v) k = Some v.
Proof.
  induction d as [|[k' v'] t IH]; simpl.
  - rewrite String.eqb_refl. reflexivity.
  - destruct (String.eqb k k') eqn:E; simpl; rewrite E; [reflexivity|exact IH].
Qed.

Lemma dict_get_set_other {V : Type} (d : dict V) (k k' : string) (v : V) :
  String.eqb k' k = false -> dict_get (dict_set d k v) k' = dict_get d k'.
Proof.
  intros Hne. induction d as [|[k0 v0] t IH]; simpl.
  - rewrite Hne. reflexivity.
  - destruct (String.eqb_spec k k0) as [->|Hk]; simpl.
    + rewrite Hne. reflexivity.
    + rewrite IH. reflexivity.
Qed.

(** ** The path map *)

Lemma label_tokens_split (l fddc cddc adc : string) :
  label_tokens l = Some (fddc, cddc, adc) -> PyStr.split l "->" = [fddc; cddc; adc].
Proof.
  unfold label_tokens.
  destruct (PyStr.split l "->") as [|? [|? [|? [|? ?]]]]; intros H;
    try discriminate H.
  injection H as -> -> ->. reflexivity.
Qed.

(** One call of [_map_to_dict] on a channel whose label has three
    tokens: the identifier goes to the end of the leaf the label names,
    which is created when missing, and no other leaf changes. *)
Lemma map_to_dict_leaf (paths : path_map) (ch : channel) (l fddc cddc adc : string) :
  label ch = Some l -> label_tokens l = Some (fddc, cddc, adc) ->
  exists paths',
    _map_to_dict paths ch = Ok paths' /\
    forall a c f,
      leaf_channels paths' a c f
      = if String.eqb a adc && String.eqb c cddc && String.eqb f fddc
        then Some (leaf_or_empty (leaf_channels paths adc cddc fddc) ++ [_id ch])
        else leaf_channels paths a c f.
Proof.
  intros Hl Ht. apply label_tokens_split in Ht.
  unfold _map_to_dict. rewrite Hl, Ht. eexists. split; [reflexivity|].
  intros a c f. unfold leaf_channels.
  destruct (String.eqb_spec a adc) as [->|Ha]; simpl.
  - rewrite dict_get_set_same.
    destruct (String.eqb_spec c cddc) as [->|Hc]; simpl.
    + rewrite dict_get_set_same.
      destruct (String.eqb_spec f fddc) as [->|Hf]; simpl.
      * rewrite dict_get_set_same.
        destruct (dict_get paths adc) as [cmap|]; simpl; [|reflexivity].
        destruct (dict_get cmap cddc) as [fmap|]; simpl; [|reflexivity].
        destruct (dict_get fmap fddc) as [e|]; reflexivity.
      * rewrite dict_get_set_other by (apply String.eqb_neq, Hf).
        destruct (dict_get paths adc) as [cmap|]; simpl; [|reflexivity].
        destruct (dict_get cmap cddc) as [fmap|]; reflexivity.
    + rewrite dict_get_set_other by (apply String.eqb_neq, Hc).
      destruct (dict_get paths adc) as [cmap|]; reflexivity.
  - rewrite dict_get_set_other by (apply String.eqb_neq, Ha). reflexivity.
Qed.

Lemma map_to_dict_ill_labelled (paths : path_map) (ch : channel) (l : string) :
  label ch = Some l -> label_tokens l = None ->
  _map_to_dict paths ch = Raise ValueError.
Proof.
  intros Hl Ht. unfold _map_to_dict. rewrite Hl. unfold label_tokens in Ht.
  destruct (PyStr.split l "->") as [|? [|? [|? [|? ?]]]];
    try reflexivity. discriminate Ht.
Qed.

Lemma ids_at_cons (ch : channel) (rest : list channel) (a c f : string) :
  ids_at (ch :: rest) a c f
  = if routed_to a c f ch then _id ch :: ids_at rest a c f else ids_at rest a c f.
Proof. unfold ids_at. simpl. destruct (routed_to a c f ch); reflexivity. Qed.

Lemma routed_to_unlabelled (ch : channel) (a c f : string) :
  label ch = None -> routed_to a c f ch = false.
Proof. intros H. unfold routed_to. rewrite H. reflexivity. Qed.

Lemma routed_to_tokens (ch : channel) (l a c f a0 c0 f0 : string) :
  label ch = Some l -> label_tokens l = Some (f0, c0, a0) ->
  routed_to a c f ch = String.eqb a a0 && String.eqb c c0 && String.eqb f f0.
Proof. intros Hl Ht. unfold routed_to. rewrite Hl, Ht. reflexivity. Qed.

Lemma build_leaves (chs : list channel) (paths : path_map) :
  Forall (fun ch => label ch = None \/ well_labelled ch) chs ->
  exists m,
    build_path_map paths chs = Ok m /\
    forall a c f,
      leaf_channels m a c f
      = extend_leaf (leaf_channels paths a c f) (ids_at chs a c f).
Proof.
  intros H. revert paths.
  induction H as [|ch rest Hch _ IH]; intros paths.
  - exists paths. split; reflexivity.
  - destruct Hch as [Hnone|[l [[[f0 c0] a0] [Hl Ht]]]].
    + destruct (IH paths) as [m [Hm Hleaf]]. exists m. split.
      * simpl. rewrite Hnone. exact Hm.
      * intros a c f. rewrite Hleaf, ids_at_cons.
        rewrite (routed_to_unlabelled ch a c f Hnone). reflexivity.
    + destruct (map_to_dict_leaf paths ch l f0 c0 a0 Hl Ht) as [paths' [Hstep Hleaf']].
      destruct (IH paths') as [m [Hm Hleaf]]. exists m. split.
      * simpl. rewrite Hl, Hstep. exact Hm.
      * intros a c f. rewrite Hleaf, Hleaf', ids_at_cons.
        rewrite (routed_to_tokens ch l a c f a0 c0 f0 Hl Ht).
        destruct (String.eqb a a0 && String.eqb c c0 && String.eqb f f0) eqn:E.
        -- apply andb_true_iff in E. destruct E as [E Ef].
           apply andb_true_iff in E. destruct E as [Ea Ec].
           apply String.eqb_eq in Ea, Ec, Ef. subst a0 c0 f0.
           destruct (ids_at rest a c f); simpl.
           ++ reflexivity.
           ++ rewrite <- app_assoc. reflexivity.
        -- reflexivity.
Qed.

Lemma build_skips_unlabelled (chs : list channel) (paths : path_map) :
  build_path_map paths chs = build_path_map paths (filter labelled chs).
Proof.
  revert paths. induction chs as [|ch rest IH]; intros paths; simpl.
  - reflexivity.
  - unfold labelled at 1. destruct (label ch) as [l|] eqn:E; simpl.
    + rewrite E. destruct (_map_to_dict paths ch); simpl; [apply IH|reflexivity].
    + apply IH.
Qed.

Lemma build_ill_labelled (chs : list channel) (paths : path_map) :
  Exists ill_labelled chs -> build_path_map paths chs = Raise ValueError.
Proof.
  revert paths. induction chs as [|ch rest IH]; intros paths Hex.
  - inversion Hex.
  - simpl. destruct (label ch) as [l|] eqn:E.
    + destruct (label_tokens l) as [[[f0 c0] a0]|] eqn:Et.
      * destruct (map_to_dict_leaf paths ch l f0 c0 a0 E Et) as [paths' [Hstep _]].
        rewrite Hstep. simpl. apply IH.
        inversion Hex as [? ? [l' [Hl' Ht']]|]; subst; [|assumption].
        congruence.
      * rewrite (map_to_dict_ill_labelled paths ch l E Et). reflexivity.
    + apply IH. inversion Hex as [? ? [l' [Hl' _]]|]; subst; [congruence|assumption].
Qed.

Lemma ids_at_in (chs : list channel) (a c f x : string) :
  In x (ids_at chs a c f) ->
  exists ch, In ch chs /\ routed_to a c f ch = true /\ _id ch = x.
Proof.
  unfold ids_at. intros H. apply in_map_iff in H. destruct H as [ch [Hid Hin]].
  apply filter_In in Hin. exists ch. tauto.
Qed.

Lemma routed_to_labelled (a c f : string) (ch : channel) :
  routed_to a c f ch = true -> labelled ch = true.
Proof. unfold routed_to, labelled. destruct (label ch); [reflexivity|discriminate]. Qed.

(** C2: for channels that all carry a three-token label, the build ends
    with a map in which the leaf [m[adc][cddc][fddc]] holds, in list
    order, the identifiers of the channels labelled [fddc->cddc->adc],
    and no leaf exists for a triple no label names; each single call of
    [_map_to_dict] appends to the leaf it names, creating it and the
    levels above it when missing.  Two channels labelled [F1->C1->A1]
    leave both identifiers, in order, under [m["A1"]["C1"]["F1"]]. *)
Theorem path_map_build (chs : list channel) :
  (Forall well_labelled chs ->
   exists m,
     build_path_map [] chs = Ok m /\
     (forall adc cddc fddc,
        leaf_channels m adc cddc fddc = extend_leaf None (ids_at chs adc cddc fddc)) /\
     (forall paths ch, In ch chs ->
        exists paths',
          _map_to_dict paths ch = Ok paths' /\
          forall adc cddc fddc,
            leaf_channels paths' adc cddc fddc
            = if routed_to adc cddc fddc ch
              then Some (leaf_or_empty (leaf_channels paths adc cddc fddc) ++ [_id ch])
              else leaf_channels paths adc cddc fddc)) /\
  (forall c1 c2, chs = [c1; c2] ->
     label c1 = Some "F1->C1->A1" -> label c2 = Some "F1->C1->A1" ->
     exists m,
       build_path_map [] chs = Ok m /\
       leaf_channels m "A1" "C1" "F1" = Some [_id c1; _id c2]).
Proof.
  split.
  - intros Hwl.
    destruct (build_leaves chs []) as [m [Hm Hleaf]].
    { eapply Forall_impl; [|exact Hwl]. intros ch H. right. exact H. }
    exists m. split; [exact Hm|]. split; [exact Hleaf|].
    intros paths ch Hin. rewrite Forall_forall in Hwl.
    destruct (Hwl ch Hin) as [l [[[f0 c0] a0] [Hl Ht]]].
    destruct (map_to_dict_leaf paths ch l f0 c0 a0 Hl Ht) as [paths' [Hstep Hleaf']].
    exists paths'. split; [exact Hstep|].
    intros adc cddc fddc.
    rewrite Hleaf', (routed_to_tokens ch l adc cddc fddc a0 c0 f0 Hl Ht).
    destruct (String.eqb adc a0 && String.eqb cddc c0 && String.eqb fddc f0) eqn:E;
      [|reflexivity].
    apply andb_true_iff in E. destruct E as [E Ef].
    apply andb_true_iff in E. destruct E as [Ea Ec].
    apply String.eqb_eq in Ea, Ec, Ef. subst. reflexivity.
  - intros c1 c2 -> H1 H2.
    destruct (build_leaves [c1; c2] []) as [m [Hm Hleaf]].
    { apply Forall_cons; [|apply Forall_cons; [|apply Forall_nil]]; right.
      - exists "F1->C1->A1", ("F1", "C1", "A1"). split; [exact H1|reflexivity].
      - exists "F1->C1->A1", ("F1", "C1", "A1"). split; [exact H2|reflexivity]. }
    exists m. split; [exact Hm|].
    rewrite Hleaf, !ids_at_cons.
    rewrite (routed_to_tokens c1 _ "A1" "C1" "F1" "A1" "C1" "F1" H1 eq_refl).
    rewrite (routed_to_tokens c2 _ "A1" "C1" "F1" "A1" "C1" "F1" H2 eq_refl).
    reflexivity.
Qed.

Lemma path_map_build_witness :
  exists m,
    build_path_map []
      [ {| _id := "voltage0_i"; label := Some "F1->C1->A1"; scan_element := true; output := false |};
        {| _id := "voltage0_q"; label := Some "F1->C1->A1"; scan_element := true; output := false |} ]
    = Ok m /\
    (forall adc cddc fddc,
       leaf_channels m adc cddc fddc
       = extend_leaf None
           (ids_at
              [ {| _id := "voltage0_i"; label := Some "F1->C1->A1"; scan_element := true; output := false |};
                {| _id := "voltage0_q"; label := Some "F1->C1->A1"; scan_element := true; output := false |} ]
              adc cddc fddc)).
Proof.
  destruct (path_map_build
    [ {| _id := "voltage0_i"; label := Some "F1->C1->A1"; scan_element := true; output := false |};
      {| _id := "voltage0_q"; label := Some "F1->C1->A1"; scan_element := true; output := false |} ])
    as [Hgen _].
  destruct Hgen as [m [Hm [Hleaf _]]].
  - apply Forall_cons; [|apply Forall_cons; [|apply Forall_nil]];
      exists "F1->C1->A1", ("F1", "C1", "A1"); split; reflexivity.
  - exists m. split; [exact Hm|exact Hleaf].
Defined.

(** C5, as the code has it: a channel without a label is left out of the
    path map, which is the map built from the labelled channels alone,
    so every identifier in it is that of a labelled channel; this holds
    when each label that is present splits into three tokens.  A label
    that is present and does not split into three tokens is not left
    out: the build ends with [ValueError]. *)
Theorem unlabelled_channels_left_out (chs : list channel) :
  (Forall (fun ch => label ch = None \/ well_labelled ch) chs ->
   exists m,
     build_path_map [] chs = Ok m /\
     build_path_map [] (filter labelled chs) = Ok m /\
     (forall adc cddc fddc,
        leaf_channels m adc cddc fddc
        = extend_leaf None (ids_at (filter labelled chs) adc cddc fddc)) /\
     (forall adc cddc fddc ids x,
        leaf_channels m adc cddc fddc = Some ids -> In x ids ->
        exists ch, In ch chs /\ labelled ch = true /\ _id ch = x)) /\
  (Exists ill_labelled chs -> build_path_map [] chs = Raise ValueError).
Proof.
  split; [|apply build_ill_labelled].
  intros H. destruct (build_leaves chs [] H) as [m [Hm Hleaf]].
  assert (Hids : forall a c f, ids_at (filter labelled chs) a c f = ids_at chs a c f).
  { intros a c f. clear. induction chs as [|ch rest IH]; [reflexivity|].
    cbn [filter]. rewrite (ids_at_cons ch rest).
    destruct (labelled ch) eqn:EL.
    - rewrite ids_at_cons, IH. reflexivity.
    - destruct (routed_to a c f ch) eqn:R; [|exact IH].
      apply routed_to_labelled in R. congruence. }
  exists m. split; [exact Hm|]. split; [rewrite <- build_skips_unlabelled; exact Hm|].
  split.
  - intros a c f. rewrite Hids. apply Hleaf.
  - intros a c f ids x Hsome Hin. rewrite Hleaf in Hsome.
    assert (Hin' : In x (ids_at chs a c f)).
    { unfold extend_leaf in Hsome. simpl in Hsome.
      destruct (ids_at chs a c f) as [|y t]; [discriminate|].
      injection Hsome as <-. exact Hin. }
    destruct (ids_at_in chs a c f x Hin') as [ch [Hch [Hr Hid]]].
    exists ch. split; [exact Hch|]. split; [|exact Hid].
    eapply routed_to_labelled, Hr.
Qed.

Lemma unlabelled_channels_left_out_witness :
  (exists m,
     build_path_map []
       [ {| _id := "timestamp"; label := None; scan_element := false; output := false |};
         {| _id := "voltage0_i"; label := Some "F0->C0->ADC0"; scan_element := true; output := false |} ]
     = Ok m /\
     leaf_channels m "ADC0" "C0" "F0" = Some ["voltage0_i"]) /\
  build_path_map []
    [ {| _id := "voltage0_i"; label := Some "F0->C0"; scan_element := true; output := false |} ]
  = Raise ValueError.
Proof.
  split.
  - destruct (unlabelled_channels_left_out
      [ {| _id := "timestamp"; label := None; scan_element := false; output := false |};
        {| _id := "voltage0_i"; label := Some "F0->C0->ADC0"; scan_element := true; output := false |} ])
      as [Hok _].
    destruct Hok as [m [Hm [_ [Hleaf _]]]].
    + apply Forall_cons; [left; reflexivity|].
      apply Forall_cons; [|apply Forall_nil].
      right. exists "F0->C0->ADC0", ("F0", "C0", "ADC0"). split; reflexivity.
    + exists m. split; [exact Hm|]. rewrite Hleaf. reflexivity.
  - apply (unlabelled_channels_left_out
      [ {| _id := "voltage0_i"; label := Some "F0->C0"; scan_element := true; output := false |} ]).
    constructor. exists "F0->C0". split; reflexivity.
Defined.

(** C5 as stated fails: a label that is present but has two tokens is
    not skipped; the build of the path map raises [ValueError]. *)
Lemma malformed_label_raises :
  ill_labelled
    {| _id := "voltage0_i"; label := Some "FDDC0->CDDC0"; scan_element := true; output := false |} /\
  build_path_map []
    [ {| _id := "voltage0_i"; label := Some "FDDC0->CDDC0"; scan_element := true; output := false |} ]
  = Raise ValueError /\
  fst (__init__
    [ {| _id := "voltage0_i"; label := Some "FDDC0->CDDC0"; scan_element := true; output := false |} ]
    [] class_ad9081) = Raise ValueError.
Proof.
  split; [exists "FDDC0->CDDC0"; split; reflexivity|]. split; reflexivity.
Qed.

(** ** Loops in the state monad *)

Lemma for_each_app {S A : Type} (l1 l2 : list A) (body : A -> M S unit) (s : S) :
  for_each (l1 ++ l2) body s = (for_each l1 body ;;; for_each l2 body) s.
Proof.
  revert s. induction l1 as [|x t IH]; intros s; simpl.
  - reflexivity.
  - unfold mbind in *. destruct (body x s) as [[[]|e] s']; [|reflexivity].
    apply IH.
Qed.

Lemma for_each_map {S A B : Type} (g : A -> B) (l : list A) (body : B -> M S unit) (s : S) :
  for_each (map g l) body s = for_each l (fun x => body (g x)) s.
Proof.
  revert s. induction l as [|x t IH]; intros s; simpl.
  - reflexivity.
  - unfold mbind. destruct (body (g x) s) as [[[]|e] s']; [apply IH|reflexivity].
Qed.

(** ** Deriving the coarse and fine lists *)

Lemma derive_names_groups (paths : path_map) (o : ad9081) :
  derive_names paths o = for_each (groups_of paths) derive_step o.
Proof.
  unfold derive_names, groups_of. revert o.
  induction paths as [|[conv cmap] t IH]; intros o; simpl.
  - reflexivity.
  - rewrite for_each_app. unfold mbind.
    unfold derive_converter at 1. rewrite for_each_map. simpl.
    unfold derive_step at 1. simpl.
    destruct (for_each cmap (fun x => derive_group conv (snd x)) o) as [[[]|e] o'];
      [apply IH|reflexivity].
Qed.

Lemma add_groups_nil (o : ad9081) : add_groups [] o = o.
Proof. destruct o. unfold add_groups. simpl. rewrite !app_nil_r. reflexivity. Qed.

Lemma add_groups_app (gs1 gs2 : list (string * fdc_map)) (o : ad9081) :
  add_groups (gs1 ++ gs2) o = add_groups gs2 (add_groups gs1 o).
Proof.
  unfold add_groups, rx_groups, tx_groups, coarse_of, fine_of. simpl.
  rewrite !filter_app, !flat_map_app, !app_assoc. reflexivity.
Qed.

Lemma derive_step_ok (g : string * fdc_map) (o : ad9081) :
  group_ids g <> [] -> derive_step g o = (Ok tt, add_groups [g] o).
Proof.
  destruct g as [conv fmap]. unfold group_ids, derive_step, derive_group. simpl.
  intros Hne. unfold add_groups, rx_groups, tx_groups, coarse_of, fine_of, group_ids.
  simpl. unfold is_adc.
  destruct (PyStr.contains "ADC" conv); simpl;
    destruct (group_i_channels fmap) as [|c0 rest]; try congruence;
    destruct o; unfold mbind, modify; simpl; rewrite !app_nil_r; reflexivity.
Qed.

Lemma derive_step_raise (g : string * fdc_map) (o : ad9081) :
  group_ids g = [] -> derive_step g o = (Raise IndexError, o).
Proof.
  destruct g as [conv fmap]. unfold group_ids, derive_step, derive_group. simpl.
  intros ->. destruct (PyStr.contains "ADC" conv); reflexivity.
Qed.

(** The loops either serve every group, or stop at the first group
    without an in-phase identifier, having served the groups before it. *)
Lemma derive_groups_run (gs : list (string * fdc_map)) (o : ad9081) :
  (Forall (fun g => group_ids g <> []) gs /\
   for_each gs derive_step o = (Ok tt, add_groups gs o))
  \/
  (exists pre g post,
     gs = pre ++ g :: post /\
     Forall (fun g => group_ids g <> []) pre /\
     group_ids g = [] /\
     for_each gs derive_step o = (Raise IndexError, add_groups pre o)).
Proof.
  revert o. induction gs as [|g t IH]; intros o.
  - left. split; [constructor|]. rewrite add_groups_nil. reflexivity.
  - destruct (group_ids g) as [|c0 rest] eqn:E.
    + right. exists [], g, t. repeat split; [constructor|exact E|].
      simpl. unfold mbind. rewrite (derive_step_raise g o E), add_groups_nil.
      reflexivity.
    + assert (Hne : group_ids g <> []) by (rewrite E; discriminate).
      assert (Hstep := derive_step_ok g o Hne).
      destruct (IH (add_groups [g] o)) as [[Hall Hrun]|[pre [g' [post [-> [Hall [Hg' Hrun]]]]]]].
      * left. split; [constructor; assumption|].
        simpl. unfold mbind. rewrite Hstep, Hrun.
        rewrite <- add_groups_app. reflexivity.
      * right. exists (g :: pre), g', post. repeat split.
        -- constructor; assumption.
        -- exact Hg'.
        -- simpl. unfold mbind. rewrite Hstep, Hrun.
           rewrite <- add_groups_app. reflexivity.
Qed.

Lemma no_i_channel_empty (g : string * fdc_map) : no_i_channel g -> group_ids g = [].
Proof.
  unfold no_i_channel, group_ids, group_i_channels. intros H.
  induction (group_channels (snd g)) as [|x t IH]; simpl; [reflexivity|].
  rewrite (H x) by (left; reflexivity). apply IH.
  intros name Hin. apply H. right. exact Hin.
Qed.


(** C3, as the code has it: the derivation serves the coarse groups of
    the path map in turn, up to the first group without an in-phase
    identifier if there is one: for each group served, the first in-phase
    identifier of the group, taken over its fine-stage buckets in order,
    is appended to the coarse list, and all its in-phase identifiers to
    the fine list, of the side of its converter.  When every group has an
    in-phase identifier every group is served.  A single receive-side
    group with voltage0_i under one fine stage and voltage1_i under the
    next adds voltage0_i alone to the coarse list and both to the fine
    list. *)
Theorem derive_names_appends (paths : path_map) (o : ad9081) :
  let gs := groups_of paths in
  let o' := snd (derive_names paths o) in
  (exists served rest,
     gs = served ++ rest /\
     Forall (fun g => group_ids g <> []) served /\
     (fst (derive_names paths o) = Ok tt /\ rest = [] \/
      fst (derive_names paths o) = Raise IndexError /\
      exists g rest', rest = g :: rest' /\ group_ids g = []) /\
     _rx_coarse_ddc_channel_names o'
     = _rx_coarse_ddc_channel_names o ++ coarse_of (rx_groups served) /\
     _rx_fine_ddc_channel_names o'
     = _rx_fine_ddc_channel_names o ++ fine_of (rx_groups served) /\
     _tx_coarse_duc_channel_names o'
     = _tx_coarse_duc_channel_names o ++ coarse_of (tx_groups served) /\
     _tx_fine_duc_channel_names o'
     = _tx_fine_duc_channel_names o ++ fine_of (tx_groups served)) /\
  (Forall (fun g => group_ids g <> []) gs ->
   fst (derive_names paths o) = Ok tt /\
   _rx_coarse_ddc_channel_names o'
   = _rx_coarse_ddc_channel_names o ++ coarse_of (rx_groups gs) /\
   _rx_fine_ddc_channel_names o'
   = _rx_fine_ddc_channel_names o ++ fine_of (rx_groups gs) /\
   _tx_coarse_duc_channel_names o'
   = _tx_coarse_duc_channel_names o ++ coarse_of (tx_groups gs) /\
   _tx_fine_duc_channel_names o'
   = _tx_fine_duc_channel_names o ++ fine_of (tx_groups gs)) /\
  (forall converter cdc fA fB,
     PyStr.contains "ADC" converter = true ->
     paths = [(converter, [(cdc, [(fA, {| channels := ["voltage0_i"] |});
                                  (fB, {| channels := ["voltage1_i"] |})])])] ->
     fst (derive_names paths o) = Ok tt /\
     _rx_coarse_ddc_channel_names o' = _rx_coarse_ddc_channel_names o ++ ["voltage0_i"] /\
     _rx_fine_ddc_channel_names o'
     = _rx_fine_ddc_channel_names o ++ ["voltage0_i"; "voltage1_i"]).
Proof.
  intros gs o'. subst gs o'. split; [|split].
  - rewrite derive_names_groups.
    destruct (derive_groups_run (groups_of paths) o)
      as [[Hall Hrun]|[pre [g [post [E [Hpre [Hg Hrun]]]]]]]; rewrite Hrun; simpl.
    + exists (groups_of paths), []. rewrite app_nil_r.
      split; [reflexivity|]. split; [exact Hall|].
      split; [left; split; reflexivity|]. repeat split.
    + exists pre, (g :: post).
      split; [exact E|]. split; [exact Hpre|].
      split; [right; split; [reflexivity|exists g, post; split; [reflexivity|exact Hg]]|].
      repeat split.
  - intros Hall. rewrite derive_names_groups.
    destruct (derive_groups_run (groups_of paths) o)
      as [[_ Hrun]|[pre [g [post [E [_ [Hg _]]]]]]].
    + rewrite Hrun. simpl. repeat split.
    + exfalso. rewrite E in Hall. apply Forall_app in Hall. destruct Hall as [_ Hall].
      inversion Hall; subst. congruence.
  - intros converter cdc fA fB Hadc ->.
    unfold derive_names, derive_converter, derive_group. simpl.
    rewrite Hadc. unfold mbind, modify, ret. simpl. repeat split.
Qed.

Lemma derive_names_appends_witness :
  let paths := [("ADC0", [("CDDC0", [("FDDC0", {| channels := ["voltage0_i"; "voltage0_q"] |});
                                     ("FDDC1", {| channels := ["voltage1_i"; "voltage1_q"] |})]);
                          ("CDDC1", [("FDDC2", {| channels := ["voltage2_i"; "voltage2_q"] |})])]);
                ("DAC0", [("CDUC0", [("FDUC0", {| channels := ["voltage0_i"; "voltage0_q"] |})])])] in
  fst (derive_names paths class_ad9081) = Ok tt /\
  _rx_coarse_ddc_channel_names (snd (derive_names paths class_ad9081))
  = ["voltage0_i"; "voltage2_i"] /\
  _rx_fine_ddc_channel_names (snd (derive_names paths class_ad9081))
  = ["voltage0_i"; "voltage1_i"; "voltage2_i"] /\
  _tx_coarse_duc_channel_names (snd (derive_names paths class_ad9081)) = ["voltage0_i"] /\
  _tx_fine_duc_channel_names (snd (derive_names paths class_ad9081)) = ["voltage0_i"].
Proof.
  intros paths.
  destruct (derive_names_appends paths class_ad9081) as [_ [Hgen _]].
  apply Hgen. repeat constructor; discriminate.
Defined.

(** C3 as stated fails: the second coarse group below has the in-phase
    identifier voltage1_i, yet nothing is appended for it: the first
    group has none, the derivation raises [IndexError] there and the
    lists stay as they were. *)
Lemma derive_names_skips_later_group :
  let paths := [("ADC0", [("C0", [("F0", {| channels := ["voltage0_q"] |})]);
                          ("C1", [("F1", {| channels := ["voltage1_i"] |})])])] in
  In ("ADC0", [("F1", {| channels := ["voltage1_i"] |})]) (groups_of paths) /\
  group_ids ("ADC0", [("F1", {| channels := ["voltage1_i"] |})]) = ["voltage1_i"] /\
  derive_names paths class_ad9081 = (Raise IndexError, class_ad9081) /\
  ~ In "voltage1_i"
      (_rx_coarse_ddc_channel_names (snd (derive_names paths class_ad9081))) /\
  ~ In "voltage1_i"
      (_rx_fine_ddc_channel_names (snd (derive_names paths class_ad9081))).
Proof.
  intros paths. split; [right; left; reflexivity|]. split; [reflexivity|].
  split; [reflexivity|]. split; intros H; exact H.
Qed.

(** C6: when some coarse group of the path map has no identifier that
    contains [_i], the derivation raises [IndexError]: it stops at the
    first such group, and the lists hold the contributions of the groups
    before it and nothing of that group or of the groups after it. *)
Theorem derive_names_empty_group (paths : path_map) (o : ad9081) :
  Exists no_i_channel (groups_of paths) ->
  exists pre g post,
    groups_of paths = pre ++ g :: post /\
    Forall (fun g => group_ids g <> []) pre /\
    no_i_channel g /\
    derive_names paths o = (Raise IndexError, add_groups pre o).
Proof.
  intros Hex. rewrite derive_names_groups.
  destruct (derive_groups_run (groups_of paths) o)
    as [[Hall _]|[pre [g [post [E [Hpre [Hg Hrun]]]]]]].
  - exfalso. rewrite Forall_forall in Hall. apply Exists_exists in Hex.
    destruct Hex as [g [Hin Hg]]. apply (Hall g Hin), no_i_channel_empty, Hg.
  - exists pre, g, post. repeat split; try assumption.
    intros name Hin. unfold group_ids, group_i_channels in Hg.
    destruct (has_i name) eqn:Hi; [|reflexivity].
    assert (Hf : In name (filter has_i (group_channels (snd g))))
      by (apply filter_In; split; assumption).
    rewrite Hg in Hf. destruct Hf.
Qed.

Lemma derive_names_empty_group_witness :
  exists pre g post,
    groups_of [("ADC0", [("CDDC0", [("FDDC0", {| channels := ["voltage0_q"] |})])])]
    = pre ++ g :: post /\
    Forall (fun g => group_ids g <> []) pre /\
    no_i_channel g /\
    derive_names [("ADC0", [("CDDC0", [("FDDC0", {| channels := ["voltage0_q"] |})])])]
      class_ad9081
    = (Raise IndexError, add_groups pre class_ad9081).
Proof.
  apply (derive_names_empty_group
           [("ADC0", [("CDDC0", [("FDDC0", {| channels := ["voltage0_q"] |})])])]
           class_ad9081).
  apply Exists_cons_hd. intros name [<-|[]]. reflexivity.
Defined.




(** ** The attribute facade *)

Section FacadeFacts.
Variable device : Type.
Variable chan_read : device -> string -> bool -> string -> result value.
Variable chan_write : device -> string -> bool -> string -> value -> result device.
Variable dev_read : device -> string -> result value.
Variable dev_write : device -> string -> value -> result device.

Lemma keeps_self_ret {A : Type} (a : A) : keeps_self (device := device) (ret a).
Proof. intros s. reflexivity. Qed.

Lemma keeps_self_raise {A : Type} (e : exn) :
  keeps_self (device := device) (A := A) (raise e).
Proof. intros s. reflexivity. Qed.

Lemma keeps_self_lift {A : Type} (r : result A) : keeps_self (device := device) (lift r).
Proof. intros s. reflexivity. Qed.

Lemma keeps_self_gets {A : Type} (f : session device -> A) : keeps_self (gets f).
Proof. intros s. reflexivity. Qed.

Lemma keeps_self_bind {A B : Type} (m : M (session device) A)
    (k : A -> M (session device) B) :
  keeps_self m -> (forall a, keeps_self (k a)) -> keeps_self (mbind m k).
Proof.
  intros Hm Hk s. unfold mbind. specialize (Hm s).
  destruct (m s) as [[a|e] s1]; simpl in *.
  - rewrite (Hk a s1). exact Hm.
  - exact Hm.
Qed.

Lemma keeps_self_log (e : io_event) : keeps_self (device := device) (log e).
Proof. intros s. reflexivity. Qed.

Lemma keeps_self_set_ctx (d : device) : keeps_self (set_ctx d).
Proof. intros s. reflexivity. Qed.

Ltac keeps :=
  repeat first
    [ apply keeps_self_ret | apply keeps_self_raise | apply keeps_self_lift
    | apply keeps_self_gets | apply keeps_self_log | apply keeps_self_set_ctx
    | apply keeps_self_bind; [|intros ?] ].

Lemma keeps_self_get_attr (c a : string) (o : bool) :
  keeps_self (_get_iio_attr chan_read c a o).
Proof. unfold _get_iio_attr. keeps. Qed.

Lemma keeps_self_set_attr (c a : string) (o : bool) (v : value) :
  keeps_self (_set_iio_attr chan_write c a o v).
Proof. unfold _set_iio_attr. keeps. Qed.

Lemma keeps_self_get_dev_attr (a : string) : keeps_self (_get_iio_dev_attr dev_read a).
Proof. unfold _get_iio_dev_attr. keeps. Qed.

Lemma keeps_self_set_dev_attr (a : string) (v : value) :
  keeps_self (_set_iio_dev_attr dev_write a v).
Proof. unfold _set_iio_dev_attr. keeps. Qed.

Lemma keeps_self_get_attr_vec (names : list string) (a : string) (o : bool) :
  keeps_self (_get_iio_attr_vec chan_read names a o).
Proof.
  induction names as [|n t IH]; simpl.
  - keeps.
  - apply keeps_self_bind; [apply keeps_self_get_attr|intros v].
    apply keeps_self_bind; [exact IH|intros vs]. keeps.
Qed.

Lemma keeps_self_set_attr_vec (names : list string) (a : string) (o : bool)
    (values : list value) :
  keeps_self (_set_iio_attr_vec chan_write names a o values).
Proof.
  revert values. induction names as [|n t IH]; intros [|v vs]; simpl; try solve [keeps].
  apply keeps_self_bind; [apply keeps_self_set_attr|intros _]. apply IH.
Qed.

Ltac keeps_op :=
  repeat first
    [ apply keeps_self_get_attr | apply keeps_self_set_attr
    | apply keeps_self_get_dev_attr | apply keeps_self_set_dev_attr
    | apply keeps_self_get_attr_vec | apply keeps_self_set_attr_vec
    | apply keeps_self_ret | apply keeps_self_raise | apply keeps_self_gets
    | apply keeps_self_bind; [|intros ?] ].

Lemma keeps_self_ffh_frequency_set (v : value) :
  keeps_self (tx_main_ffh_frequency_set chan_read chan_write v).
Proof.
  unfold tx_main_ffh_frequency_set, tx_main_ffh_index_get.
  apply keeps_self_bind; [apply keeps_self_get_attr|intros idx].
  destruct (eq_zero idx); keeps_op.
Qed.

Lemma keeps_self_run_op (op : facade_op) :
  keeps_self (run_op chan_read chan_write dev_read dev_write op).
Proof.
  destruct op; unfold run_op, as_val, as_vec, as_none;
    try (apply keeps_self_bind; [apply keeps_self_ffh_frequency_set|intros ?; keeps_op]);
    unfold path_map_get,
      rx_channel_nco_frequencies_get, rx_channel_nco_frequencies_set,
      rx_channel_nco_phases_get, rx_channel_nco_phases_set,
      rx_main_nco_frequencies_get, rx_main_nco_frequencies_set,
      rx_main_nco_phases_get, rx_main_nco_phases_set,
      rx_test_mode_get, rx_test_mode_set, rx_nyquist_zone_get, rx_nyquist_zone_set,
      tx_channel_nco_frequencies_get, tx_channel_nco_frequencies_set,
      tx_channel_nco_phases_get, tx_channel_nco_phases_set,
      tx_main_nco_frequencies_get, tx_main_nco_frequencies_set,
      tx_main_nco_phases_get, tx_main_nco_phases_set,
      tx_main_ffh_frequency_get, tx_main_ffh_index_get, tx_main_ffh_index_set,
      tx_main_ffh_mode_get, tx_main_ffh_mode_set,
      loopback_mode_get, loopback_mode_set,
      rx_sampling_frequency, adc_frequency, tx_sampling_frequency, dac_frequency,
      _get_iio_attr_str, _set_iio_attr_str;
    keeps_op.
Qed.

(** C9: every property access, getter or setter, successful or not,
    leaves the path map and the channel-name lists of the object as they
    were; what changes is the device behind the object and the record of
    the requests made of it. *)
Theorem facade_keeps_topology (op : facade_op) (s : session device) :
  let s' := snd (run_op chan_read chan_write dev_read dev_write op s) in
  self s' = self s /\
  _path_map (self s') = _path_map (self s) /\
  _rx_channel_names (self s') = _rx_channel_names (self s) /\
  _tx_channel_names (self s') = _tx_channel_names (self s) /\
  _rx_coarse_ddc_channel_names (self s') = _rx_coarse_ddc_channel_names (self s) /\
  _tx_coarse_duc_channel_names (self s') = _tx_coarse_duc_channel_names (self s) /\
  _rx_fine_ddc_channel_names (self s') = _rx_fine_ddc_channel_names (self s) /\
  _tx_fine_duc_channel_names (self s') = _tx_fine_duc_channel_names (self s).
Proof.
  intros s'. assert (E : self s' = self s) by apply keeps_self_run_op.
  rewrite E. repeat split.
Qed.

(** C4: on every device state the setter of [tx_main_ffh_frequency]
    starts by reading [main_ffh_index] of the output channel voltage0_i.
    When the value read equals zero it raises the exception whose text
    names [tx_main_ffh_index]; the device is as before and no write was
    asked of it.  When the value read differs from zero the setter goes
    on to write [main_ffh_frequency].  A failure of the read itself ends
    the call with that failure. *)
Theorem ffh_frequency_guard (v : value) (s : session device) :
  let rd := ChanRead "voltage0_i" true "main_ffh_index" in
  let wr := ChanWrite "voltage0_i" true "main_ffh_frequency" v in
  let after_read := {| self := self s; ctx := ctx s; trace := trace s ++ [rd] |} in
  let r := tx_main_ffh_frequency_set chan_read chan_write v s in
  (exists rest, trace (snd r) = trace s ++ rd :: rest) /\
  (forall idx,
     chan_read (ctx s) "voltage0_i" true "main_ffh_index" = Ok idx ->
     eq_zero idx = true ->
     r = (Raise (Exception ffh_error), after_read) /\
     PyStr.contains "tx_main_ffh_index" ffh_error = true /\
     ctx (snd r) = ctx s /\
     filter is_write (trace (snd r)) = filter is_write (trace s)) /\
  (forall idx,
     chan_read (ctx s) "voltage0_i" true "main_ffh_index" = Ok idx ->
     eq_zero idx = false ->
     r = _set_iio_attr chan_write "voltage0_i" "main_ffh_frequency" true v after_read /\
     trace (snd r) = trace s ++ [rd; wr] /\
     (forall d', chan_write (ctx s) "voltage0_i" true "main_ffh_frequency" v = Ok d' ->
        r = (Ok tt, {| self := self s; ctx := d'; trace := trace s ++ [rd; wr] |}))) /\
  (forall e,
     chan_read (ctx s) "voltage0_i" true "main_ffh_index" = Raise e ->
     r = (Raise e, after_read)).
Proof.
  intros rd wr after_read r.
  assert (E : r = match chan_read (ctx s) "voltage0_i" true "main_ffh_index" with
                  | Ok idx =>
                      (if eq_zero idx then raise (Exception ffh_error)
                       else _set_iio_attr chan_write "voltage0_i" "main_ffh_frequency"
                              true v) after_read
                  | Raise e => (Raise e, after_read)
                  end).
  { subst r. unfold tx_main_ffh_frequency_set, tx_main_ffh_index_get, _get_iio_attr.
    unfold mbind, log, modify, gets, lift. simpl.
    destruct (chan_read (ctx s) "voltage0_i" true "main_ffh_index"); reflexivity. }
  assert (Hwrite : trace (snd (_set_iio_attr chan_write "voltage0_i" "main_ffh_frequency"
                                 true v after_read))
                   = trace s ++ [rd; wr]).
  { unfold _set_iio_attr, mbind, log, modify, gets, lift, set_ctx. simpl.
    destruct (chan_write (ctx s) "voltage0_i" true "main_ffh_frequency" v);
      simpl; rewrite <- app_assoc; reflexivity. }
  rewrite E. clear E r.
  split; [|split; [|split]].
  - destruct (chan_read (ctx s) "voltage0_i" true "main_ffh_index") as [idx|e];
      cbv beta iota.
    + destruct (eq_zero idx).
      * exists []. reflexivity.
      * exists [wr]. exact Hwrite.
    + exists []. reflexivity.
  - intros idx Hread Hz. rewrite Hread. cbv beta iota. rewrite Hz.
    split; [reflexivity|]. split; [reflexivity|]. split; [reflexivity|].
    simpl. rewrite filter_app. simpl. apply app_nil_r.
  - intros idx Hread Hz. rewrite Hread. cbv beta iota. rewrite Hz.
    split; [reflexivity|]. split; [exact Hwrite|].
    intros d' Hw.
    unfold _set_iio_attr, mbind, log, modify, gets, lift, set_ctx. simpl.
    rewrite Hw. simpl. rewrite <- app_assoc. reflexivity.
  - intros e Hread. rewrite Hread. reflexivity.
Qed.

End FacadeFacts.

Lemma facade_keeps_topology_witness :
  let s := {| self := class_ad9081;
              ctx := [("voltage0_i", true, "main_ffh_index", VNum 3)];
              trace := [] |} in
  let s' := snd (run_op sim_chan_read sim_chan_write sim_dev_read sim_dev_write
                   (Set_tx_main_ffh_frequency (VNum 100)) s) in
  self s' = class_ad9081 /\ _path_map (self s') = [] /\
  _rx_channel_names (self s') = [] /\ _tx_channel_names (self s') = [] /\
  _rx_coarse_ddc_channel_names (self s') = [] /\
  _tx_coarse_duc_channel_names (self s') = [] /\
  _rx_fine_ddc_channel_names (self s') = [] /\
  _tx_fine_duc_channel_names (self s') = [].
Proof.
  intros s s'.
  exact (facade_keeps_topology sim_device sim_chan_read sim_chan_write
           sim_dev_read sim_dev_write (Set_tx_main_ffh_frequency (VNum 100)) s).
Defined.

Lemma ffh_frequency_guard_witness :
  let s := {| self := class_ad9081;
              ctx := [("voltage0_i", true, "main_ffh_index", VNum 0)];
              trace := [] |} in
  tx_main_ffh_frequency_set sim_chan_read sim_chan_write (VNum 100) s
  = (Raise (Exception ffh_error),
     {| self := class_ad9081;
        ctx := [("voltage0_i", true, "main_ffh_index", VNum 0)];
        trace := [ChanRead "voltage0_i" true "main_ffh_index"] |}).
Proof.
  intros s.
  destruct (ffh_frequency_guard sim_device sim_chan_read sim_chan_write
              (VNum 100) s) as [_ [Hzero _]].
  apply (Hzero (VNum 0) eq_refl eq_refl).
Defined.

Example ffh_frequency_write_proceeds :
  tx_main_ffh_frequency_set sim_chan_read sim_chan_write (VNum 100)
    {| self := class_ad9081;
       ctx := [("voltage0_i", true, "main_ffh_index", VNum 3)];
       trace := [] |}
  = (Ok tt,
     {| self := class_ad9081;
        ctx := [("voltage0_i", true, "main_ffh_frequency", VNum 100);
                ("voltage0_i", true, "main_ffh_index", VNum 3)];
        trace := [ChanRead "voltage0_i" true "main_ffh_index";
                  ChanWrite "voltage0_i" true "main_ffh_frequency" (VNum 100)] |}).
Proof. reflexivity. Qed.

(** * Further properties of the code *)

(** ** When the sort raises *)

Lemma int_cases (s : string) : (exists z, PyStr.int s = Ok z) \/ PyStr.int s = Raise ValueError.
Proof.
  unfold PyStr.int.
  match goal with
  | |- context [match ?r with Some _ => _ | None => _ end] => destruct r as [z|]
  end.
  - left. exists z. reflexivity.
  - right. reflexivity.
Qed.

Lemma ignoreadc_cases (w : string) : has_key ignoreadc w \/ key_fails ignoreadc w.
Proof. apply int_cases. Qed.

Lemma ignorealt_cases (w : string) : has_key ignorealt w \/ key_fails ignorealt w.
Proof. apply int_cases. Qed.

Lemma has_key_not_fails (key : string -> result Z) (w : string) :
  has_key key w -> ~ key_fails key w.
Proof. intros [k Hk] Hf. unfold key_fails in Hf. congruence. Qed.

(** [sorted] either has every key and sorts, or meets a name whose key
    raises and ends with [ValueError]. *)
Lemma sorted_cases (key : string -> result Z) (l : list string) :
  (forall w, has_key key w \/ key_fails key w) ->
  (Forall (has_key key) l /\ sorted l key = Ok (sort_by (key_of key) l)) \/
  (Exists (key_fails key) l /\ sorted l key = Raise ValueError).
Proof.
  intros Hkey.
  assert (Hdec : (Forall (has_key key) l /\
                  decorate key l = Ok (map (fun x => (key_of key x, x)) l)) \/
                 (Exists (key_fails key) l /\ decorate key l = Raise ValueError)).
  { induction l as [|x t IH].
    - left. split; [constructor|reflexivity].
    - unfold decorate in *. simpl.
      destruct (Hkey x) as [Hx|Hx].
      + rewrite (has_key_key_of key x Hx). simpl.
        destruct IH as [[Hall E]|[Hex E]]; rewrite E; simpl.
        * left. split; [constructor; assumption|reflexivity].
        * right. split; [apply Exists_cons_tl, Hex|reflexivity].
      + right. split; [apply Exists_cons_hd, Hx|].
        unfold key_fails in Hx. rewrite Hx. reflexivity. }
  unfold sorted. destruct Hdec as [[Hall E]|[Hex E]]; rewrite E; simpl.
  - left. split; [exact Hall|reflexivity].
  - right. split; [exact Hex|reflexivity].
Qed.

Lemma Forall_not_Exists_fails (key : string -> result Z) (l : list string) :
  Forall (has_key key) l -> ~ Exists (key_fails key) l.
Proof.
  intros Hall Hex. apply Exists_exists in Hex. destruct Hex as [w [Hin Hf]].
  rewrite Forall_forall in Hall. exact (has_key_not_fails key w (Hall w Hin) Hf).
Qed.

Lemma Exists_filter_in {A : Type} (P : A -> Prop) (f : A -> bool) (l : list A) :
  Exists P (filter f l) -> Exists P l.
Proof.
  rewrite !Exists_exists. intros [x [Hin HP]]. exists x.
  apply filter_In in Hin. tauto.
Qed.

(** What [_sortconv] does, by cases on the keys, for the default sort and
    the sort without quadrature names. *)
Lemma sortconv_adc_cases (chans : list string) (noq : bool) :
  let tmpI := filter has_i chans in
  let tmpQ := filter has_q chans in
  (Exists (key_fails ignoreadc) (tmpI ++ tmpQ) /\
   _sortconv chans noq false = Raise ValueError) \/
  (Forall (has_key ignoreadc) (tmpI ++ tmpQ) /\
   _sortconv chans noq false
   = sortconv_loop noq (sort_by adc_index tmpI) (sort_by adc_index tmpQ) 0 []).
Proof.
  intros tmpI tmpQ. unfold _sortconv. fold tmpI tmpQ.
  destruct (sorted_cases ignoreadc tmpI ignoreadc_cases) as [[HI EI]|[HI EI]];
    rewrite EI; simpl.
  - destruct (sorted_cases ignoreadc tmpQ ignoreadc_cases) as [[HQ EQ]|[HQ EQ]];
      rewrite EQ; simpl.
    + right. split; [apply Forall_app; split; assumption|reflexivity].
    + left. split; [apply Exists_app; right; exact HQ|reflexivity].
  - left. split; [apply Exists_app; left; exact HI|reflexivity].
Qed.

Lemma sortconv_dds_cases (chans : list string) (noq : bool) :
  (Exists (key_fails ignorealt) chans /\ _sortconv chans noq true = Raise ValueError) \/
  (Forall (has_key ignorealt) chans /\
   _sortconv chans noq true = Ok (sort_by (key_of ignorealt) chans)).
Proof.
  unfold _sortconv.
  destruct (sorted_cases ignorealt chans ignorealt_cases) as [[HI EI]|[HI EI]];
    rewrite EI; simpl.
  - right. split; [exact HI|].
    rewrite (sorted_ok ignorealt (key_of ignorealt) (filter has_q chans)).
    + simpl. apply sortconv_loop_noq.
    + apply Forall_filter. eapply Forall_impl; [|exact HI]. apply has_key_key_of.
  - left. split; [exact HI|reflexivity].
Qed.

Lemma sortconv_loop_not_value_error (noq : bool) (tmpI tmpQ : list string) :
  sortconv_loop noq tmpI tmpQ 0 [] <> Raise ValueError.
Proof.
  destruct noq.
  - rewrite sortconv_loop_noq. discriminate.
  - rewrite sortconv_loop_pairs. simpl.
    destruct (List.length tmpI <=? List.length tmpQ)%nat; discriminate.
Qed.

(** X1: [_sortconv] raises [ValueError] exactly when the key of some name
    it sorts cannot be read: with the default key, a name of the [_i] or
    of the [_q] partition, whatever [noq]; in the DDS sort, any name of
    the input. *)
Theorem sortconv_value_error_iff (chans : list string) (noq : bool) :
  (_sortconv chans noq false = Raise ValueError <->
   Exists (key_fails ignoreadc) (filter has_i chans ++ filter has_q chans)) /\
  (_sortconv chans noq true = Raise ValueError <->
   Exists (key_fails ignorealt) chans).
Proof.
  split; split.
  - intros E. destruct (sortconv_adc_cases chans noq) as [[Hex _]|[_ Hrun]];
      [exact Hex|].
    rewrite Hrun in E. exfalso. exact (sortconv_loop_not_value_error _ _ _ E).
  - intros Hex. destruct (sortconv_adc_cases chans noq) as [[_ E]|[Hall _]];
      [exact E|].
    exfalso. exact (Forall_not_Exists_fails _ _ Hall Hex).
  - intros E. destruct (sortconv_dds_cases chans noq) as [[Hex _]|[_ Hrun]];
      [exact Hex|].
    rewrite Hrun in E. discriminate.
  - intros Hex. destruct (sortconv_dds_cases chans noq) as [[_ E]|[Hall _]];
      [exact E|].
    exfalso. exact (Forall_not_Exists_fails _ _ Hall Hex).
Qed.

(** X2: [_sortconv] raises [IndexError] exactly when it is called with
    the default flags, every key can be read and there are more [_i]
    names than [_q] names; with [noq] or [dds] set it never does. *)
Theorem sortconv_index_error_iff (chans : list string) (noq dds : bool) :
  _sortconv chans noq dds = Raise IndexError <->
  noq = false /\ dds = false /\
  Forall (has_key ignoreadc) (filter has_i chans ++ filter has_q chans) /\
  (List.length (filter has_q chans) < List.length (filter has_i chans))%nat.
Proof.
  split.
  - intros E. destruct dds.
    + destruct (sortconv_dds_cases chans noq) as [[_ R]|[_ R]];
        rewrite R in E; discriminate.
    + destruct (sortconv_adc_cases chans noq) as [[_ R]|[Hall R]];
        rewrite R in E; [discriminate|].
      destruct noq.
      * rewrite sortconv_loop_noq in E. discriminate.
      * rewrite sortconv_loop_pairs in E. simpl in E.
        rewrite !sort_by_length in E.
        destruct (Nat.leb_spec (List.length (filter has_i chans))
                    (List.length (filter has_q chans))); [discriminate|].
        repeat split; assumption.
  - intros [-> [-> [Hall Hlen]]].
    destruct (sortconv_adc_cases chans false) as [[Hex _]|[_ R]].
    + exfalso. exact (Forall_not_Exists_fails _ _ Hall Hex).
    + rewrite R, sortconv_loop_pairs. simpl. rewrite !sort_by_length.
      apply Nat.leb_gt in Hlen. rewrite Hlen. reflexivity.
Qed.

(** X3: with [noq=True] the result is the [_i] names alone, in ascending
    order of their index, however many [_q] names there are; the keys of
    the [_q] names are read all the same and must not raise. *)
Theorem sortconv_noq_in_phase_only (chans : list string) :
  Forall (has_key ignoreadc) (filter has_i chans ++ filter has_q chans) ->
  exists out,
    _sortconv chans true false = Ok out /\
    Permutation (filter has_i chans) out /\
    ascending adc_index out.
Proof.
  intros Hall. exists (sort_by adc_index (filter has_i chans)). split; [|split].
  - destruct (sortconv_adc_cases chans true) as [[Hex _]|[_ R]].
    + exfalso. exact (Forall_not_Exists_fails _ _ Hall Hex).
    + rewrite R. apply sortconv_loop_noq.
  - apply sort_by_perm.
  - apply sort_by_ascending.
Qed.

Lemma sortconv_noq_in_phase_only_witness :
  exists out,
    _sortconv ["voltage1_i"; "voltage0_q"; "voltage0_i"] true false = Ok out /\
    Permutation (filter has_i ["voltage1_i"; "voltage0_q"; "voltage0_i"]) out /\
    ascending adc_index out.
Proof.
  apply (sortconv_noq_in_phase_only ["voltage1_i"; "voltage0_q"; "voltage0_i"]).
  repeat constructor; [exists 1|exists 0|exists 0]; reflexivity.
Defined.

Example sortconv_noq_bad_q :
  _sortconv ["voltage0_i"; "voltagex_q"] true false = Raise ValueError.
Proof. reflexivity. Qed.

(** ** Order and content of the sorted names *)

Lemma insert_key_stable {A : Type} (k k0 : Z) (x : A) (l : list (Z * A)) :
  filter (fun p => fst p =? k) (insert_key k0 x l)
  = filter (fun p => fst p =? k) ((k0, x) :: l).
Proof.
  induction l as [|[k' y] t IH].
  - reflexivity.
  - cbn [insert_key]. destruct (Z.leb_spec k0 k') as [Hle|Hgt]; [reflexivity|].
    cbn [filter fst] in *. rewrite IH.
    destruct (Z.eqb_spec k0 k), (Z.eqb_spec k' k); try reflexivity. lia.
Qed.

Lemma sort_keyed_stable {A : Type} (k : Z) (l : list (Z * A)) :
  filter (fun p => fst p =? k) (sort_keyed l) = filter (fun p => fst p =? k) l.
Proof.
  induction l as [|[k0 x] t IH]; [reflexivity|].
  cbn [sort_keyed]. rewrite insert_key_stable. cbn [filter]. rewrite IH. reflexivity.
Qed.

Lemma filter_map_comm {A B : Type} (g : A -> B) (f : B -> bool) (l : list A) :
  filter f (map g l) = map g (filter (fun x => f (g x)) l).
Proof.
  induction l as [|x t IH]; simpl; [reflexivity|].
  destruct (f (g x)); simpl; rewrite IH; reflexivity.
Qed.

Lemma sort_by_stable {A : Type} (kf : A -> Z) (k : Z) (l : list A) :
  filter (fun x => kf x =? k) (sort_by kf l) = filter (fun x => kf x =? k) l.
Proof.
  unfold sort_by.
  assert (Hkeys : Forall (fun p => fst p = kf (snd p))
                    (sort_keyed (map (fun x => (kf x, x)) l))).
  { eapply Permutation_Forall; [apply sort_keyed_perm|].
    rewrite Forall_forall. intros p Hp.
    apply in_map_iff in Hp. destruct Hp as [x [<- _]]. reflexivity. }
  rewrite filter_map_comm.
  rewrite (filter_ext_in (fun p => kf (snd p) =? k) (fun p => fst p =? k)).
  - rewrite sort_keyed_stable, filter_map_comm, map_map. simpl. apply map_id.
  - rewrite Forall_forall in Hkeys. intros p Hp. rewrite (Hkeys p Hp). reflexivity.
Qed.

Lemma sort_by_sorted_id {A : Type} (kf : A -> Z) (l : list A) :
  ascending kf l -> sort_by kf l = l.
Proof.
  unfold ascending, sort_by. induction 1 as [|a t Hs IH Hall]; [reflexivity|].
  cbn [map sort_keyed].
  destruct (sort_keyed (map (fun x => (kf x, x)) t)) as [|[k' y] t'] eqn:E.
  - simpl in *. rewrite <- IH. reflexivity.
  - cbn [insert_key]. simpl in IH.
    assert (Hy : In y t) by (rewrite <- IH; left; reflexivity).
    assert (Hk' : k' = kf y).
    { assert (Hin : In (k', y) (map (fun x => (kf x, x)) t)).
      { eapply Permutation_in; [apply Permutation_sym, sort_keyed_perm|].
        rewrite E. left. reflexivity. }
      apply in_map_iff in Hin. destruct Hin as [x [Hx _]]. congruence. }
    rewrite Forall_forall in Hall. specialize (Hall y Hy).
    replace (kf a <=? k') with true by (symmetry; apply Z.leb_le; lia).
    simpl. rewrite IH. reflexivity.
Qed.

(** X4: the DDS sort is stable: names with the same numeric suffix, such
    as altvoltage1 and altvoltage01, come out in the order in which they
    were given. *)
Theorem sortconv_dds_stable (l out : list string) (noq : bool) (k : Z) :
  Forall dds_name l ->
  _sortconv l noq true = Ok out ->
  filter (fun w => alt_suffix w =? k) out = filter (fun w => alt_suffix w =? k) l.
Proof.
  intros Hl E.
  destruct (sortconv_dds_cases l noq) as [[_ R]|[_ R]]; rewrite R in E;
    [discriminate|].
  injection E as <-.
  rewrite (sort_by_ext (key_of ignorealt) alt_suffix).
  - apply sort_by_stable.
  - eapply Forall_impl; [|exact Hl]. intros w Hw. unfold key_of.
    rewrite (dds_name_key w Hw). reflexivity.
Qed.

Lemma sortconv_dds_stable_witness :
  filter (fun w => alt_suffix w =? 1) ["altvoltage0"; "altvoltage1"; "altvoltage01"]
  = filter (fun w => alt_suffix w =? 1) ["altvoltage1"; "altvoltage0"; "altvoltage01"].
Proof.
  apply (sortconv_dds_stable ["altvoltage1"; "altvoltage0"; "altvoltage01"]
           ["altvoltage0"; "altvoltage1"; "altvoltage01"] false 1).
  - repeat constructor.
    + exists "1". repeat split. discriminate.
    + exists "0". repeat split. discriminate.
    + exists "01". repeat split. discriminate.
  - reflexivity.
Defined.

(** X5: sorting the result of a DDS sort again returns it unchanged. *)
Theorem sortconv_dds_idempotent (l out : list string) (noq noq' : bool) :
  _sortconv l noq true = Ok out -> _sortconv out noq' true = Ok out.
Proof.
  intros E.
  destruct (sortconv_dds_cases l noq) as [[_ R]|[Hall R]]; rewrite R in E;
    [discriminate|].
  injection E as <-.
  destruct (sortconv_dds_cases (sort_by (key_of ignorealt) l) noq')
    as [[Hex _]|[_ R']].
  - exfalso. apply (Forall_not_Exists_fails ignorealt _) in Hex; [exact Hex|].
    eapply Permutation_Forall; [apply sort_by_perm|exact Hall].
  - rewrite R'. f_equal. apply sort_by_sorted_id, sort_by_ascending.
Qed.

Lemma sortconv_dds_idempotent_witness :
  _sortconv ["altvoltage0"; "altvoltage1"; "altvoltage3"] true true
  = Ok ["altvoltage0"; "altvoltage1"; "altvoltage3"].
Proof.
  apply (sortconv_dds_idempotent ["altvoltage3"; "altvoltage0"; "altvoltage1"]
           ["altvoltage0"; "altvoltage1"; "altvoltage3"] false true).
  reflexivity.
Defined.

Lemma filter_filter_implied {A : Type} (f g : A -> bool) (l : list A) :
  (forall x, f x = true -> g x = true) -> filter f (filter g l) = filter f l.
Proof.
  intros H. induction l as [|x t IH]; simpl; [reflexivity|].
  destruct (g x) eqn:Eg; simpl.
  - rewrite IH. reflexivity.
  - destruct (f x) eqn:Ef; [|exact IH]. rewrite (H x Ef) in Eg. discriminate.
Qed.

(** X6: outside the DDS sort, a name that contains neither [_i] nor [_q]
    has no effect: the result, or the exception, is that of the input
    without such names. *)
Theorem sortconv_ignores_other_names (chans : list string) (noq : bool) :
  _sortconv (filter (fun w => has_i w || has_q w) chans) noq false
  = _sortconv chans noq false.
Proof.
  unfold _sortconv.
  rewrite (filter_filter_implied has_i) by (intros x ->; reflexivity).
  rewrite (filter_filter_implied has_q) by (intros x ->; apply orb_true_r).
  reflexivity.
Qed.

Lemma zip_iq_incl (tmpI tmpQ : list string) :
  incl (zip_iq tmpI tmpQ) (tmpI ++ tmpQ).
Proof.
  revert tmpQ. induction tmpI as [|x t IH]; intros [|q tq]; simpl;
    try (intros y Hy; contradiction).
  intros y [<-|[<-|Hin]].
  - left. reflexivity.
  - right. apply in_or_app. right. left. reflexivity.
  - right. specialize (IH tq y Hin). apply in_app_or in IH.
    apply in_or_app. destruct IH; [left|right; right]; assumption.
Qed.

Lemma zip_iq_length (tmpI tmpQ : list string) :
  (List.length tmpI <= List.length tmpQ)%nat ->
  List.length (zip_iq tmpI tmpQ) = (2 * List.length tmpI)%nat.
Proof.
  revert tmpQ. induction tmpI as [|x t IH]; intros [|q tq] H; simpl in *;
    try reflexivity; try lia.
  rewrite IH by lia. lia.
Qed.

(** X7: a result of [_sortconv] holds only names of the input.  It has as
    many names as the input in the DDS sort, as many as there are [_i]
    names with [noq], and twice as many as there are [_i] names with the
    default flags. *)
Theorem sortconv_output_names (chans out : list string) (noq dds : bool) :
  _sortconv chans noq dds = Ok out ->
  incl out chans /\
  List.length out
  = (if dds then List.length chans
     else if noq then List.length (filter has_i chans)
     else 2 * List.length (filter has_i chans))%nat.
Proof.
  intros E. destruct dds.
  - destruct (sortconv_dds_cases chans noq) as [[_ R]|[_ R]]; rewrite R in E;
      [discriminate|].
    injection E as <-. split.
    + intros x Hx. eapply Permutation_in; [apply Permutation_sym, sort_by_perm|exact Hx].
    + apply sort_by_length.
  - destruct (sortconv_adc_cases chans noq) as [[_ R]|[_ R]]; rewrite R in E;
      [discriminate|].
    destruct noq.
    + rewrite sortconv_loop_noq in E. injection E as <-. simpl. split.
      * intros x Hx.
        apply (Permutation_in _ (Permutation_sym (sort_by_perm adc_index _))) in Hx.
        apply filter_In in Hx. apply Hx.
      * apply sort_by_length.
    + rewrite sortconv_loop_pairs in E. simpl in E.
      destruct (Nat.leb_spec (List.length (sort_by adc_index (filter has_i chans)))
                  (List.length (sort_by adc_index (filter has_q chans))));
        [|discriminate].
      injection E as <-. split.
      * intros x Hx. apply zip_iq_incl in Hx. apply in_app_or in Hx.
        destruct Hx as [Hx|Hx];
          apply (Permutation_in _ (Permutation_sym (sort_by_perm adc_index _))) in Hx;
          apply filter_In in Hx; apply Hx.
      * rewrite zip_iq_length by assumption. rewrite sort_by_length. reflexivity.
Qed.

Lemma sortconv_output_names_witness :
  incl ["voltage1_i"; "voltage0_q"] ["voltage1_i"; "voltage2_q"; "voltage0_q"] /\
  List.length ["voltage1_i"; "voltage0_q"]
  = (2 * List.length (filter has_i ["voltage1_i"; "voltage2_q"; "voltage0_q"]))%nat.
Proof.
  apply (sortconv_output_names ["voltage1_i"; "voltage2_q"; "voltage0_q"]
           ["voltage1_i"; "voltage0_q"] false false).
  reflexivity.
Defined.

(** ** Channel names in their usual form *)

Lemma str_length_app (a b : string) :
  String.length (a ++ b)%string = (String.length a + String.length b)%nat.
Proof. induction a as [|c a IH]; simpl; [reflexivity|]. rewrite IH. reflexivity. Qed.

Lemma take_app_length (a b : string) : PyStr.take (String.length a) (a ++ b)%string = a.
Proof. induction a as [|c a IH]; simpl; [destruct b; reflexivity|]. rewrite IH. reflexivity. Qed.

Lemma prefix_underscore_digit (r s : string) (c : ascii) :
  is_digit c = true -> prefix (String "_" r) (String c s) = false.
Proof.
  intros H. cbn [prefix]. destruct (ascii_dec "_" c) as [E|]; [|reflexivity].
  subst c. discriminate H.
Qed.

Lemma contains_after_digits (r ds tail : string) :
  all_digits ds = true ->
  PyStr.contains (String "_" r) (ds ++ tail)%string = PyStr.contains (String "_" r) tail.
Proof.
  induction ds as [|c ds IH]; intros H; [reflexivity|].
  simpl in H. apply andb_true_iff in H. destruct H as [Hc Hds].
  change (String c ds ++ tail)%string with (String c (ds ++ tail)%string).
  cbn [PyStr.contains]. rewrite (prefix_underscore_digit r _ c Hc). apply IH, Hds.
Qed.

Lemma find_after_digits (ds tail : string) (i : Z) :
  all_digits ds = true ->
  PyStr.find_from "_" (ds ++ tail)%string i
  = PyStr.find_from "_" tail (i + Z.of_nat (String.length ds)).
Proof.
  revert i. induction ds as [|c ds IH]; intros i H.
  - simpl. rewrite Z.add_0_r. reflexivity.
  - simpl in H. apply andb_true_iff in H. destruct H as [Hc Hds].
    change (String c ds ++ tail)%string with (String c (ds ++ tail)%string).
    cbn [PyStr.find_from]. rewrite (prefix_underscore_digit "" _ c Hc).
    rewrite (IH (i + 1) Hds). f_equal. cbn [String.length]. lia.
Qed.

Lemma has_i_rx_names (ds : string) :
  all_digits ds = true ->
  has_i (rx_i_name ds) = true /\ has_i (rx_q_name ds) = false.
Proof.
  intros H. unfold has_i, rx_i_name, rx_q_name.
  change (PyStr.contains "_i" ("voltage" ++ ds ++ "_i"))
    with (PyStr.contains "_i" (ds ++ "_i")).
  change (PyStr.contains "_i" ("voltage" ++ ds ++ "_q"))
    with (PyStr.contains "_i" (ds ++ "_q")).
  rewrite !(contains_after_digits "i" ds _ H). split; reflexivity.
Qed.

Lemma has_q_rx_names (ds : string) :
  all_digits ds = true ->
  has_q (rx_i_name ds) = false /\ has_q (rx_q_name ds) = true.
Proof.
  intros H. unfold has_q, rx_i_name, rx_q_name.
  change (PyStr.contains "_q" ("voltage" ++ ds ++ "_i"))
    with (PyStr.contains "_q" (ds ++ "_i")).
  change (PyStr.contains "_q" ("voltage" ++ ds ++ "_q"))
    with (PyStr.contains "_q" (ds ++ "_q")).
  rewrite !(contains_after_digits "q" ds _ H). split; reflexivity.
Qed.

(** The key of a name [voltage<digits>_...] is the value of the digits. *)
Lemma ignoreadc_rx_name (ds tail : string) :
  digits ds ->
  ignoreadc ("voltage" ++ ds ++ String "_" tail) = Ok (dec_value ds).
Proof.
  intros [Hne Hd]. unfold ignoreadc, PyStr.find.
  change (PyStr.find_from "_" ("voltage" ++ ds ++ String "_" tail) 0)
    with (PyStr.find_from "_" (ds ++ String "_" tail) 7).
  rewrite (find_after_digits ds _ 7 Hd).
  assert (Hfind : forall i, PyStr.find_from "_" (String "_" tail) i = i).
  { intros i. cbn [PyStr.find_from prefix].
    destruct (ascii_dec "_" "_") as [_|Hne']; [|congruence].
    destruct tail; reflexivity. }
  rewrite Hfind.
  change (Z.of_nat (String.length "voltage")) with 7.
  unfold PyStr.slice.
  assert (Hlen : Z.of_nat (String.length ("voltage" ++ ds ++ String "_" tail))
                 = 7 + Z.of_nat (String.length ds) + 1 + Z.of_nat (String.length tail)).
  { change ("voltage" ++ ds ++ String "_" tail)%string
      with ("voltage" ++ (ds ++ String "_" tail))%string.
    rewrite !str_length_app. cbn [String.length]. lia. }
  rewrite Hlen, !clip_in_range by lia.
  assert (Hpos : (0 < String.length ds)%nat).
  { destruct ds; [congruence|simpl; lia]. }
  destruct (Z.ltb_spec 7 (7 + Z.of_nat (String.length ds))); [|lia].
  replace (Z.to_nat (7 + Z.of_nat (String.length ds) - 7)) with (String.length ds) by lia.
  change (PyStr.drop (Z.to_nat 7) ("voltage" ++ ds ++ String "_" tail))
    with (ds ++ String "_" tail)%string.
  rewrite take_app_length. apply int_of_digits. split; assumption.
Qed.

Lemma rx_partitions (dss : list string) :
  Forall digits dss ->
  filter has_i (flat_map rx_pair_names dss) = map rx_i_name dss /\
  filter has_q (flat_map rx_pair_names dss) = map rx_q_name dss.
Proof.
  induction 1 as [|ds t [_ Hd] _ [IHi IHq]]; [split; reflexivity|].
  cbn [flat_map rx_pair_names app filter map].
  destruct (has_i_rx_names ds Hd) as [-> ->].
  destruct (has_q_rx_names ds Hd) as [-> ->].
  rewrite IHi, IHq. split; reflexivity.
Qed.

(** X8: for data channels named voltage<digits>_i and voltage<digits>_q,
    one pair per index, the sort key is the decimal value of the digits:
    whatever the order of the input, the output lists the pairs by
    ascending numeric value of the index, so voltage10 comes after
    voltage9, each [_i] name followed by its [_q] name. *)
Theorem sortconv_numeric_order_of_names (chans dss : list string) :
  Forall digits dss ->
  NoDup (map dec_value dss) ->
  Permutation chans (flat_map rx_pair_names dss) ->
  _sortconv chans false false = Ok (flat_map rx_pair_names (sort_by dec_value dss)) /\
  Permutation dss (sort_by dec_value dss) /\
  StronglySorted Z.lt (map dec_value (sort_by dec_value dss)).
Proof.
  intros Hd Hnd Hp. split; [|split].
  - destruct (rx_partitions dss Hd) as [Ei Eq].
    set (mk := fun ds => {| idx := dec_value ds; name_i := rx_i_name ds;
                            name_q := rx_q_name ds |}).
    rewrite (sortconv_pairs chans (map mk dss)).
    + f_equal. rewrite (sort_by_map mk idx). unfold emit_pairs.
      rewrite flat_map_concat_map, map_map, <- flat_map_concat_map. reflexivity.
    + eapply perm_trans; [apply filter_perm, Hp|].
      rewrite Ei, map_map. apply Permutation_refl.
    + eapply perm_trans; [apply filter_perm, Hp|].
      rewrite Eq, map_map. apply Permutation_refl.
    + rewrite Forall_map. eapply Forall_impl; [|exact Hd]. intros ds Hds. simpl.
      split; [apply (ignoreadc_rx_name ds "i" Hds)|apply (ignoreadc_rx_name ds "q" Hds)].
    + rewrite map_map. simpl. exact Hnd.
  - apply sort_by_perm.
  - apply ascending_strict; [apply sort_by_ascending|].
    eapply Permutation_NoDup; [|exact Hnd]. apply Permutation_map, sort_by_perm.
Qed.

Lemma sortconv_numeric_order_of_names_witness :
  _sortconv ["voltage10_q"; "voltage9_i"; "voltage10_i"; "voltage9_q"] false false
  = Ok (flat_map rx_pair_names (sort_by dec_value ["10"; "9"])) /\
  Permutation ["10"; "9"] (sort_by dec_value ["10"; "9"]) /\
  StronglySorted Z.lt (map dec_value (sort_by dec_value ["10"; "9"])).
Proof.
  apply (sortconv_numeric_order_of_names
           ["voltage10_q"; "voltage9_i"; "voltage10_i"; "voltage9_q"] ["10"; "9"]).
  - repeat constructor; discriminate.
  - repeat constructor; simpl; intuition discriminate.
  - apply (perm_trans (l' := ["voltage10_i"; "voltage10_q"; "voltage9_i"; "voltage9_q"])).
    + apply (perm_trans (l' := ["voltage10_q"; "voltage10_i"; "voltage9_i"; "voltage9_q"])).
      * apply perm_skip, perm_swap.
      * apply perm_swap.
    + apply Permutation_refl.
Defined.

(** ** Labels and the path map *)


Lemma dict_set_flat {V X : Type} (g : V -> list X) (d : dict V) (k : string) (v : V) :
  Permutation
    (flat_map (fun kv => g (snd kv)) (dict_set d k v)
     ++ match dict_get d k with Some old => g old | None => [] end)
    (flat_map (fun kv => g (snd kv)) d ++ g v).
Proof.
  induction d as [|[k' v'] t IH]; simpl.
  - rewrite !app_nil_r. apply Permutation_refl.
  - destruct (String.eqb k k'); simpl.
    + eapply perm_trans; [apply Permutation_app_comm|].
      rewrite <- app_assoc. apply Permutation_app_head, Permutation_app_comm.
    + rewrite <- !app_assoc. apply Permutation_app_head. exact IH.
Qed.

Lemma dict_set_adds {V : Type} (g : V -> list string) (d : dict V) (k : string)
    (v : V) (old_ids : list string) (id : string) :
  match dict_get d k with Some old => g old | None => [] end = old_ids ->
  Permutation (g v) (old_ids ++ [id]) ->
  Permutation (flat_map (fun kv => g (snd kv)) (dict_set d k v))
              (flat_map (fun kv => g (snd kv)) d ++ [id]).
Proof.
  intros Hold Hv. apply (Permutation_app_inv_r old_ids).
  eapply perm_trans; [rewrite <- Hold; apply dict_set_flat|].
  rewrite <- app_assoc. apply Permutation_app_head.
  eapply perm_trans; [exact Hv|]. apply Permutation_app_comm.
Qed.

Lemma map_to_dict_ids (paths paths' : path_map) (ch : channel) :
  _map_to_dict paths ch = Ok paths' ->
  Permutation (path_ids paths') (path_ids paths ++ [_id ch]).
Proof.
  unfold _map_to_dict. destruct (label ch) as [l|]; [|discriminate].
  destruct (PyStr.split l "->") as [|fddc [|cddc [|adc [|? ?]]]]; try discriminate.
  intros E. injection E as <-.
  unfold path_ids.
  apply (dict_set_adds cdc_ids paths adc _
           (cdc_ids match dict_get paths adc with Some m => m | None => [] end)).
  { destruct (dict_get paths adc); reflexivity. }
  unfold cdc_ids at 1 2.
  apply (dict_set_adds group_channels _ cddc _
           (group_channels
              match dict_get match dict_get paths adc with Some m => m | None => [] end cddc
              with Some m => m | None => [] end)).
  { destruct (dict_get _ cddc); reflexivity. }
  unfold group_channels at 1 2.
  apply (dict_set_adds channels _ fddc _
           match dict_get
                   match dict_get match dict_get paths adc with Some m => m | None => [] end
                           cddc
                   with Some m => m | None => [] end fddc
           with Some e => channels e | None => [] end).
  { reflexivity. }
  destruct (dict_get _ fddc); apply Permutation_refl.
Qed.

Lemma build_ids (chs : list channel) (paths m : path_map) :
  build_path_map paths chs = Ok m ->
  Permutation (path_ids m) (path_ids paths ++ map _id (filter labelled chs)).
Proof.
  revert paths. induction chs as [|ch rest IH]; intros paths E.
  - simpl in *. injection E as <-. rewrite app_nil_r. apply Permutation_refl.
  - cbn [build_path_map] in E. cbn [filter]. unfold labelled at 1.
    destruct (label ch) as [l|].
    + destruct (_map_to_dict paths ch) as [paths'|e] eqn:Estep; [|discriminate].
      simpl in E. eapply perm_trans; [apply (IH paths' E)|].
      simpl. eapply perm_trans.
      * apply Permutation_app_tail, (map_to_dict_ids paths paths' ch Estep).
      * rewrite <- app_assoc. apply Permutation_refl.
    + apply (IH paths E).
Qed.

(** X10: the identifiers stored in the path map are, up to order, the
    identifiers of the labelled channels, each as often as a labelled
    channel carries it; when these identifiers are distinct, an
    identifier is in one leaf only, and once. *)
Theorem path_map_holds_labelled_ids (chs : list channel) (m : path_map) :
  build_path_map [] chs = Ok m ->
  Permutation (path_ids m) (map _id (filter labelled chs)) /\
  (NoDup (map _id (filter labelled chs)) -> NoDup (path_ids m)).
Proof.
  intros E. assert (Hp := build_ids chs [] m E). simpl in Hp.
  split; [exact Hp|].
  intros Hnd. eapply Permutation_NoDup; [apply Permutation_sym, Hp|exact Hnd].
Qed.

Lemma path_map_holds_labelled_ids_witness :
  Permutation
    (path_ids
       [("ADC0", [("CDDC0", [("FDDC1", {| channels := ["voltage1_i"; "voltage1_q"] |});
                             ("FDDC0", {| channels := ["voltage0_i"] |})])])])
    ["voltage1_i"; "voltage0_i"; "voltage1_q"].
Proof.
  apply (path_map_holds_labelled_ids
    [ {| _id := "voltage1_i"; label := Some "FDDC1->CDDC0->ADC0"; scan_element := true; output := false |};
      {| _id := "timestamp"; label := None; scan_element := true; output := false |};
      {| _id := "voltage0_i"; label := Some "FDDC0->CDDC0->ADC0"; scan_element := true; output := false |};
      {| _id := "voltage1_q"; label := Some "FDDC1->CDDC0->ADC0"; scan_element := true; output := false |} ]).
  reflexivity.
Defined.

(** The label format *)

Lemma prefix_empty (s : string) : prefix "" s = true.
Proof. destruct s; reflexivity. Qed.

Lemma prefix_arrow_cons (c : ascii) (f tail : string) :
  PyStr.contains "->" (String c f) = false ->
  prefix "->" (String c (f ++ "->" ++ tail)) = false.
Proof.
  intros H. cbn [PyStr.contains] in H.
  destruct (prefix "->" (String c f)) eqn:Ep; [discriminate|].
  cbn [prefix] in *. destruct (ascii_dec "-" c) as [_|]; [|reflexivity].
  destruct f as [|c2 f].
  - cbn [append prefix]. destruct (ascii_dec ">" "-") as [E|]; [discriminate E|reflexivity].
  - cbn [append prefix] in *. destruct (ascii_dec ">" c2) as [_|]; [|reflexivity].
    rewrite prefix_empty in Ep. discriminate.
Qed.

Lemma contains_tail (sub : string) (c : ascii) (s : string) :
  PyStr.contains sub (String c s) = false -> PyStr.contains sub s = false.
Proof.
  cbn [PyStr.contains]. destruct (prefix sub (String c s)); [discriminate|]. tauto.
Qed.

Lemma app_cons_assoc (cur : string) (c : ascii) (f : string) :
  ((cur ++ String c "") ++ f)%string = (cur ++ String c f)%string.
Proof. induction cur as [|a cur IH]; simpl; [reflexivity|]. rewrite IH. reflexivity. Qed.

Lemma str_app_nil_r (s : string) : (s ++ "")%string = s.
Proof. induction s as [|c s IH]; simpl; [reflexivity|]. rewrite IH. reflexivity. Qed.

Lemma split_token (f tail cur : string) :
  no_arrow f ->
  PyStr.split_from "->" 0 cur (f ++ "->" ++ tail)
  = (cur ++ f)%string :: PyStr.split_from "->" 0 "" tail.
Proof.
  unfold no_arrow. revert cur. induction f as [|c f IH]; intros cur H.
  - rewrite str_app_nil_r.
    change ("" ++ "->" ++ tail)%string with (String "-" (String ">" tail)).
    cbn [PyStr.split_from prefix].
    destruct (ascii_dec "-" "-") as [_|N]; [|congruence].
    destruct (ascii_dec ">" ">") as [_|N]; [|congruence].
    rewrite prefix_empty. reflexivity.
  - change (String c f ++ "->" ++ tail)%string with (String c (f ++ "->" ++ tail)).
    cbn [PyStr.split_from]. rewrite (prefix_arrow_cons c f tail H).
    rewrite (IH _ (contains_tail _ _ _ H)), app_cons_assoc. reflexivity.
Qed.

Lemma split_last_token (a cur : string) :
  no_arrow a -> PyStr.split_from "->" 0 cur a = [(cur ++ a)%string].
Proof.
  unfold no_arrow. revert cur. induction a as [|c a IH]; intros cur H.
  - rewrite str_app_nil_r. reflexivity.
  - cbn [PyStr.split_from].
    assert (Ep : prefix "->" (String c a) = false).
    { cbn [PyStr.contains] in H. destruct (prefix "->" (String c a)); [discriminate|reflexivity]. }
    rewrite Ep, (IH _ (contains_tail _ _ _ H)), app_cons_assoc. reflexivity.
Qed.

(** X11: a label written [fddc->cddc->adc] from three tokens in which
    [->] does not occur is read back as these three tokens, and the
    channel that carries it is stored under [paths[adc][cddc][fddc]]. *)
Theorem label_round_trip (fddc cddc adc : string) (paths : path_map) (ch : channel) :
  no_arrow fddc -> no_arrow cddc -> no_arrow adc ->
  label_tokens (make_label fddc cddc adc) = Some (fddc, cddc, adc) /\
  (label ch = Some (make_label fddc cddc adc) ->
   exists paths',
     _map_to_dict paths ch = Ok paths' /\
     leaf_channels paths' adc cddc fddc
     = Some (leaf_or_empty (leaf_channels paths adc cddc fddc) ++ [_id ch])).
Proof.
  intros Hf Hc Ha.
  assert (Ht : label_tokens (make_label fddc cddc adc) = Some (fddc, cddc, adc)).
  { unfold label_tokens, make_label, PyStr.split.
    rewrite (split_token fddc _ "" Hf), (split_token cddc _ "" Hc),
      (split_last_token adc "" Ha). reflexivity. }
  split; [exact Ht|]. intros Hl.
  destruct (map_to_dict_leaf paths ch _ fddc cddc adc Hl Ht) as [paths' [E Hleaf]].
  exists paths'. split; [exact E|].
  rewrite Hleaf, !String.eqb_refl. reflexivity.
Qed.

Lemma label_round_trip_witness :
  label_tokens (make_label "FDDC0" "CDDC1" "ADC2") = Some ("FDDC0", "CDDC1", "ADC2").
Proof.
  apply (label_round_trip "FDDC0" "CDDC1" "ADC2" []
           {| _id := "voltage0_i"; label := None; scan_element := true; output := false |});
    reflexivity.
Defined.

(** ** The derived lists *)

Lemma path_ids_groups (paths : path_map) :
  path_ids paths = flat_map (fun g => group_channels (snd g)) (groups_of paths).
Proof.
  unfold path_ids, groups_of. induction paths as [|[conv cmap] t IH]; simpl.
  - reflexivity.
  - rewrite flat_map_app, IH. f_equal. unfold cdc_ids.
    induction cmap as [|[cdc fmap] u IHu]; simpl; [reflexivity|].
    rewrite IHu. reflexivity.
Qed.

Lemma coarse_in_fine (gs : list (string * fdc_map)) : incl (coarse_of gs) (fine_of gs).
Proof.
  unfold coarse_of, fine_of. intros x Hx.
  apply in_flat_map in Hx. destruct Hx as [g [Hg Hin]].
  apply in_flat_map. exists g. split; [exact Hg|].
  destruct (group_ids g) as [|c0 rest]; [destruct Hin|].
  simpl in Hin. destruct Hin as [<-|[]]. left. reflexivity.
Qed.

Lemma fine_has_i (gs : list (string * fdc_map)) :
  Forall (fun w => has_i w = true) (fine_of gs).
Proof.
  rewrite Forall_forall. unfold fine_of, group_ids, group_i_channels. intros x Hx.
  apply in_flat_map in Hx. destruct Hx as [g [_ Hin]].
  apply filter_In in Hin. apply Hin.
Qed.

Lemma fine_in_groups (sub gs : list (string * fdc_map)) :
  incl sub gs ->
  incl (fine_of sub) (flat_map (fun g => group_channels (snd g)) gs).
Proof.
  unfold fine_of, group_ids, group_i_channels. intros Hsub x Hx.
  apply in_flat_map in Hx. destruct Hx as [g [Hg Hin]].
  apply in_flat_map. exists g. split; [apply Hsub, Hg|].
  apply filter_In in Hin. apply Hin.
Qed.

(** X12: whether the derivation ends normally or raises, what it has
    added to the coarse and fine lists are in-phase identifiers of the
    path map, and every identifier added to a coarse list is also added
    to the fine list of the same side. *)
Theorem derived_names_in_phase (paths : path_map) (o : ad9081) :
  let o' := snd (derive_names paths o) in
  exists c_rx f_rx c_tx f_tx,
    _rx_coarse_ddc_channel_names o' = _rx_coarse_ddc_channel_names o ++ c_rx /\
    _rx_fine_ddc_channel_names o' = _rx_fine_ddc_channel_names o ++ f_rx /\
    _tx_coarse_duc_channel_names o' = _tx_coarse_duc_channel_names o ++ c_tx /\
    _tx_fine_duc_channel_names o' = _tx_fine_duc_channel_names o ++ f_tx /\
    incl c_rx f_rx /\ incl c_tx f_tx /\
    Forall (fun w => has_i w = true) (f_rx ++ f_tx) /\
    incl (f_rx ++ f_tx) (path_ids paths).
Proof.
  intros o'. subst o'. rewrite derive_names_groups.
  assert (Hserved : exists served, incl served (groups_of paths) /\
            snd (for_each (groups_of paths) derive_step o) = add_groups served o).
  { destruct (derive_groups_run (groups_of paths) o)
      as [[_ Hrun]|[pre [g [post [E [_ [_ Hrun]]]]]]]; rewrite Hrun.
    - exists (groups_of paths). split; [apply incl_refl|reflexivity].
    - exists pre. split; [|reflexivity]. rewrite E. apply incl_appl, incl_refl. }
  destruct Hserved as [served [Hsub ->]].
  exists (coarse_of (rx_groups served)), (fine_of (rx_groups served)),
         (coarse_of (tx_groups served)), (fine_of (tx_groups served)).
  simpl. do 4 (split; [reflexivity|]).
  split; [apply coarse_in_fine|]. split; [apply coarse_in_fine|]. split.
  - apply Forall_app. split; apply fine_has_i.
  - rewrite path_ids_groups. apply incl_app; apply fine_in_groups;
      intros g Hg; apply filter_In in Hg; apply Hsub, Hg.
Qed.

(** ** The constructor as a whole *)

Lemma set_rx_channel_names_same (o : ad9081) :
  set_rx_channel_names (_rx_channel_names o) o = o.
Proof. destruct o. reflexivity. Qed.

Lemma collect_rx (chs : list channel) (o : ad9081) :
  for_each chs (fun ch =>
    if scan_element ch && negb (output ch)
    then modify (fun o => set_rx_channel_names (_rx_channel_names o ++ [_id ch]) o)
    else ret tt) o
  = (Ok tt, set_rx_channel_names (_rx_channel_names o ++ rx_data_ids chs) o).
Proof.
  unfold rx_data_ids. revert o. induction chs as [|ch rest IH]; intros o.
  - simpl. rewrite app_nil_r, set_rx_channel_names_same. reflexivity.
  - cbn [for_each filter]. unfold mbind.
    destruct (scan_element ch && negb (output ch)).
    + unfold modify at 1. rewrite IH. f_equal.
      unfold set_rx_channel_names. simpl. rewrite <- app_assoc. reflexivity.
    + unfold ret at 1. apply IH.
Qed.

Lemma collect_tx (chs : list channel) (o : ad9081) :
  for_each chs (fun ch =>
    if scan_element ch
    then modify (fun o => set_tx_channel_names (_tx_channel_names o ++ [_id ch]) o)
    else modify (fun o => set_dds_channel_names (_dds_channel_names o ++ [_id ch]) o)) o
  = (Ok tt,
     set_dds_channel_names (_dds_channel_names o ++ dds_ids chs)
       (set_tx_channel_names (_tx_channel_names o ++ tx_data_ids chs) o)).
Proof.
  unfold tx_data_ids, dds_ids. revert o. induction chs as [|ch rest IH]; intros o.
  - simpl. rewrite !app_nil_r. destruct o. reflexivity.
  - cbn [for_each filter]. unfold mbind.
    destruct (scan_element ch); unfold modify at 1; rewrite IH; f_equal;
      unfold set_dds_channel_names, set_tx_channel_names; simpl;
      rewrite <- app_assoc; reflexivity.
Qed.

(** The constructor, stage by stage: each stage that raises ends the
    call in the state the stages before it have left. *)
Lemma init_stages (rxadc txdac : list channel) (o : ad9081) :
  __init__ rxadc txdac o
  = match build_path_map [] rxadc with
    | Raise e => (Raise e, o)
    | Ok paths =>
        let c := collected paths rxadc txdac o in
        match _sortconv (_rx_channel_names c) false false with
        | Raise e => (Raise e, c)
        | Ok rx' =>
            match _sortconv (_tx_channel_names c) false false with
            | Raise e => (Raise e, set_rx_channel_names rx' c)
            | Ok tx' =>
                match _sortconv (_dds_channel_names c) false true with
                | Raise e =>
                    (Raise e, set_tx_channel_names tx' (set_rx_channel_names rx' c))
                | Ok dds' =>
                    derive_names paths
                      (set_rx_coarse []
                         (set_rx_fine []
                            (set_dds_channel_names dds'
                               (set_tx_channel_names tx'
                                  (set_rx_channel_names rx' c)))))
                end
            end
        end
    end.
Proof.
  unfold __init__. unfold mbind at 1. unfold lift at 1.
  destruct (build_path_map [] rxadc) as [paths|e]; [|reflexivity].
  unfold mbind at 1. unfold modify at 1.
  unfold mbind at 1. rewrite collect_rx.
  unfold mbind at 1. rewrite collect_tx.
  assert (Ec : set_dds_channel_names
                 (_dds_channel_names
                    (set_rx_channel_names
                       (_rx_channel_names (set_path_map paths o) ++ rx_data_ids rxadc)
                       (set_path_map paths o)) ++ dds_ids txdac)
                 (set_tx_channel_names
                    (_tx_channel_names
                       (set_rx_channel_names
                          (_rx_channel_names (set_path_map paths o) ++ rx_data_ids rxadc)
                          (set_path_map paths o)) ++ tx_data_ids txdac)
                    (set_rx_channel_names
                       (_rx_channel_names (set_path_map paths o) ++ rx_data_ids rxadc)
                       (set_path_map paths o)))
               = collected paths rxadc txdac o) by reflexivity.
  rewrite Ec. clear Ec. cbv zeta.
  set (c := collected paths rxadc txdac o).
  unfold mbind at 1. unfold gets at 1.
  unfold mbind at 1. unfold lift at 1.
  destruct (_sortconv (_rx_channel_names c) false false) as [rx'|e]; [|reflexivity].
  unfold mbind at 1. unfold modify at 1.
  unfold mbind at 1. unfold gets at 1.
  unfold mbind at 1. unfold lift at 1.
  change (_tx_channel_names (set_rx_channel_names rx' c)) with (_tx_channel_names c).
  destruct (_sortconv (_tx_channel_names c) false false) as [tx'|e]; [|reflexivity].
  unfold mbind at 1. unfold modify at 1.
  unfold mbind at 1. unfold gets at 1.
  unfold mbind at 1. unfold lift at 1.
  change (_dds_channel_names (set_tx_channel_names tx' (set_rx_channel_names rx' c)))
    with (_dds_channel_names c).
  destruct (_sortconv (_dds_channel_names c) false true) as [dds'|e]; [|reflexivity].
  reflexivity.
Qed.

(** X13: when every stage succeeds, the constructor leaves the path map
    built from the receive channels, the three name lists sorted (the
    identifiers found on the device appended to what the lists held at
    entry, then sorted), the receive-side coarse and fine lists made of
    the contributions of the path map alone, and the transmit-side lists
    extended from what they held at entry. *)
Theorem init_result (rxadc txdac : list channel) (o : ad9081) (paths : path_map)
    (rx' tx' dds' : list string) :
  build_path_map [] rxadc = Ok paths ->
  _sortconv (_rx_channel_names o ++ rx_data_ids rxadc) false false = Ok rx' ->
  _sortconv (_tx_channel_names o ++ tx_data_ids txdac) false false = Ok tx' ->
  _sortconv (_dds_channel_names o ++ dds_ids txdac) false true = Ok dds' ->
  Forall (fun g => group_ids g <> []) (groups_of paths) ->
  __init__ rxadc txdac o
  = (Ok tt,
     {| _path_map := paths;
        _rx_channel_names := rx';
        _tx_channel_names := tx';
        _dds_channel_names := dds';
        _rx_coarse_ddc_channel_names := coarse_of (rx_groups (groups_of paths));
        _rx_fine_ddc_channel_names := fine_of (rx_groups (groups_of paths));
        _tx_coarse_duc_channel_names :=
          _tx_coarse_duc_channel_names o ++ coarse_of (tx_groups (groups_of paths));
        _tx_fine_duc_channel_names :=
          _tx_fine_duc_channel_names o ++ fine_of (tx_groups (groups_of paths)) |}).
Proof.
  intros Hb Hrx Htx Hdds Hall.
  rewrite init_stages, Hb. cbv zeta.
  change (_rx_channel_names (collected paths rxadc txdac o))
    with (_rx_channel_names o ++ rx_data_ids rxadc).
  change (_tx_channel_names (collected paths rxadc txdac o))
    with (_tx_channel_names o ++ tx_data_ids txdac).
  change (_dds_channel_names (collected paths rxadc txdac o))
    with (_dds_channel_names o ++ dds_ids txdac).
  rewrite Hrx, Htx, Hdds, derive_names_groups.
  destruct (derive_groups_run (groups_of paths)
              (set_rx_coarse []
                 (set_rx_fine []
                    (set_dds_channel_names dds'
                       (set_tx_channel_names tx'
                          (set_rx_channel_names rx' (collected paths rxadc txdac o)))))))
    as [[_ Hrun]|[pre [g [post [E [_ [Hg _]]]]]]].
  - rewrite Hrun. reflexivity.
  - exfalso. rewrite E in Hall. apply Forall_app in Hall. destruct Hall as [_ Hall].
    inversion Hall; subst. congruence.
Qed.

Lemma init_result_witness :
  __init__
    [ {| _id := "voltage0_q"; label := Some "FDDC0->CDDC0->ADC0"; scan_element := true; output := false |};
      {| _id := "voltage0_i"; label := Some "FDDC0->CDDC0->ADC0"; scan_element := true; output := false |} ]
    [ {| _id := "voltage0_i"; label := None; scan_element := true; output := true |};
      {| _id := "voltage0_q"; label := None; scan_element := true; output := true |};
      {| _id := "altvoltage0"; label := None; scan_element := false; output := true |} ]
    class_ad9081
  = (Ok tt,
     {| _path_map :=
          [("ADC0", [("CDDC0", [("FDDC0", {| channels := ["voltage0_q"; "voltage0_i"] |})])])];
        _rx_channel_names := ["voltage0_i"; "voltage0_q"];
        _tx_channel_names := ["voltage0_i"; "voltage0_q"];
        _dds_channel_names := ["altvoltage0"];
        _rx_coarse_ddc_channel_names := ["voltage0_i"];
        _rx_fine_ddc_channel_names := ["voltage0_i"];
        _tx_coarse_duc_channel_names := [];
        _tx_fine_duc_channel_names := [] |}).
Proof.
  apply (init_result
    [ {| _id := "voltage0_q"; label := Some "FDDC0->CDDC0->ADC0"; scan_element := true; output := false |};
      {| _id := "voltage0_i"; label := Some "FDDC0->CDDC0->ADC0"; scan_element := true; output := false |} ]
    [ {| _id := "voltage0_i"; label := None; scan_element := true; output := true |};
      {| _id := "voltage0_q"; label := None; scan_element := true; output := true |};
      {| _id := "altvoltage0"; label := None; scan_element := false; output := true |} ]
    class_ad9081
    [("ADC0", [("CDDC0", [("FDDC0", {| channels := ["voltage0_q"; "voltage0_i"] |})])])]
    ["voltage0_i"; "voltage0_q"] ["voltage0_i"; "voltage0_q"] ["altvoltage0"]);
    try reflexivity.
  repeat constructor. discriminate.
Defined.

(** X14: a label that does not split into three tokens makes the
    constructor raise [ValueError] with the path map, the three name
    lists and the four coarse and fine lists all as they were at entry:
    nothing has been stored or appended.  (The context and the device
    handles of lines 102-107 are set before that.) *)
Theorem init_ill_labelled_untouched (rxadc txdac : list channel) (o : ad9081) :
  Exists ill_labelled rxadc ->
  __init__ rxadc txdac o = (Raise ValueError, o).
Proof.
  intros Hex. rewrite init_stages, (build_ill_labelled rxadc [] Hex). reflexivity.
Qed.

Lemma init_ill_labelled_untouched_witness :
  __init__
    [ {| _id := "voltage0_i"; label := Some "FDDC0"; scan_element := true; output := false |} ]
    [ {| _id := "altvoltage0"; label := None; scan_element := false; output := true |} ]
    class_ad9081
  = (Raise ValueError, class_ad9081).
Proof.
  apply init_ill_labelled_untouched.
  apply Exists_cons_hd. exists "FDDC0". split; reflexivity.
Defined.

(** X15: when the sort of the receive names raises, the constructor ends
    with that exception and leaves the identifiers it has collected in
    the three name lists, unsorted, after what the lists held at entry;
    the coarse and fine lists are as at entry. *)
Theorem init_sort_failure_keeps_names (rxadc txdac : list channel) (o : ad9081)
    (paths : path_map) (e : exn) :
  build_path_map [] rxadc = Ok paths ->
  _sortconv (_rx_channel_names o ++ rx_data_ids rxadc) false false = Raise e ->
  __init__ rxadc txdac o
  = (Raise e,
     {| _path_map := paths;
        _rx_channel_names := _rx_channel_names o ++ rx_data_ids rxadc;
        _tx_channel_names := _tx_channel_names o ++ tx_data_ids txdac;
        _dds_channel_names := _dds_channel_names o ++ dds_ids txdac;
        _rx_coarse_ddc_channel_names := _rx_coarse_ddc_channel_names o;
        _rx_fine_ddc_channel_names := _rx_fine_ddc_channel_names o;
        _tx_coarse_duc_channel_names := _tx_coarse_duc_channel_names o;
        _tx_fine_duc_channel_names := _tx_fine_duc_channel_names o |}).
Proof.
  intros Hb Hrx. rewrite init_stages, Hb. cbv zeta.
  change (_rx_channel_names (collected paths rxadc txdac o))
    with (_rx_channel_names o ++ rx_data_ids rxadc).
  rewrite Hrx. reflexivity.
Qed.

Lemma init_sort_failure_keeps_names_witness :
  __init__
    [ {| _id := "voltage0_i"; label := None; scan_element := true; output := false |} ]
    [ {| _id := "altvoltage0"; label := None; scan_element := false; output := true |} ]
    class_ad9081
  = (Raise IndexError,
     {| _path_map := [];
        _rx_channel_names := ["voltage0_i"];
        _tx_channel_names := [];
        _dds_channel_names := ["altvoltage0"];
        _rx_coarse_ddc_channel_names := [];
        _rx_fine_ddc_channel_names := [];
        _tx_coarse_duc_channel_names := [];
        _tx_fine_duc_channel_names := [] |}).
Proof.
  apply (init_sort_failure_keeps_names
    [ {| _id := "voltage0_i"; label := None; scan_element := true; output := false |} ]
    [ {| _id := "altvoltage0"; label := None; scan_element := false; output := true |} ]
    class_ad9081 [] IndexError); reflexivity.
Defined.

(** ** Reading and writing through the properties *)

Section FacadeReads.
Variable device : Type.
Variable chan_read : device -> string -> bool -> string -> result value.
Variable chan_write : device -> string -> bool -> string -> value -> result device.
Variable dev_read : device -> string -> result value.
Variable dev_write : device -> string -> value -> result device.

Lemma reads_only_ret {A : Type} (a : A) : reads_only (device := device) (ret a).
Proof. intros s. split; reflexivity. Qed.

Lemma reads_only_gets {A : Type} (f : session device -> A) : reads_only (gets f).
Proof. intros s. split; reflexivity. Qed.

Lemma reads_only_bind {A B : Type} (m : M (session device) A)
    (k : A -> M (session device) B) :
  reads_only m -> (forall a, reads_only (k a)) -> reads_only (mbind m k).
Proof.
  intros Hm Hk s. unfold mbind. destruct (Hm s) as [Hc Ht].
  destruct (m s) as [[a|e] s1]; simpl in *.
  - destruct (Hk a s1) as [Hc' Ht']. split; congruence.
  - split; assumption.
Qed.

Lemma reads_only_get_attr (c a : string) (o : bool) :
  reads_only (_get_iio_attr chan_read c a o).
Proof.
  intros s. unfold _get_iio_attr, mbind, log, modify, gets, lift. simpl.
  split; [reflexivity|]. rewrite filter_app. simpl. apply app_nil_r.
Qed.

Lemma reads_only_get_dev_attr (a : string) : reads_only (_get_iio_dev_attr dev_read a).
Proof.
  intros s. unfold _get_iio_dev_attr, mbind, log, modify, gets, lift. simpl.
  split; [reflexivity|]. rewrite filter_app. simpl. apply app_nil_r.
Qed.

Lemma reads_only_get_attr_vec (names : list string) (a : string) (o : bool) :
  reads_only (_get_iio_attr_vec chan_read names a o).
Proof.
  induction names as [|n t IH]; simpl.
  - apply reads_only_ret.
  - apply reads_only_bind; [apply reads_only_get_attr|intros v].
    apply reads_only_bind; [exact IH|intros vs]. apply reads_only_ret.
Qed.

Ltac reads :=
  repeat first
    [ apply reads_only_get_attr | apply reads_only_get_dev_attr
    | apply reads_only_get_attr_vec | apply reads_only_ret | apply reads_only_gets
    | apply reads_only_bind; [|intros ?] ].

(** X16: a getter, whichever property it reads, leaves the device as it
    was and asks no write of it, whether it returns or raises. *)
Theorem getters_do_not_write (op : facade_op) (s : session device) :
  is_getter op = true ->
  let s' := snd (run_op chan_read chan_write dev_read dev_write op s) in
  ctx s' = ctx s /\ filter is_write (trace s') = filter is_write (trace s).
Proof.
  intros Hg s'. subst s'.
  assert (H : reads_only (run_op chan_read chan_write dev_read dev_write op)).
  { destruct op; try discriminate Hg; unfold run_op, as_val, as_vec;
      unfold path_map_get,
        rx_channel_nco_frequencies_get, rx_channel_nco_phases_get,
        rx_main_nco_frequencies_get, rx_main_nco_phases_get,
        rx_test_mode_get, rx_nyquist_zone_get,
        tx_channel_nco_frequencies_get, tx_channel_nco_phases_get,
        tx_main_nco_frequencies_get, tx_main_nco_phases_get,
        tx_main_ffh_frequency_get, tx_main_ffh_index_get, tx_main_ffh_mode_get,
        loopback_mode_get,
        rx_sampling_frequency, adc_frequency, tx_sampling_frequency, dac_frequency,
        _get_iio_attr_str;
      reads. }
  apply H.
Qed.

(** The device hands back what was last written to an attribute. *)
Hypothesis read_back :
  forall d c o a v d', chan_write d c o a v = Ok d' -> chan_read d' c o a = Ok v.

(** X17: on a device that hands back what was last written, selecting
    the hop bank and then setting the hop frequency behaves by the bank
    just selected: after bank zero the frequency setter raises the
    precondition exception and the device keeps the state the index
    write left; after any other bank the frequency is written. *)
Theorem ffh_index_then_frequency (n f : value) (s : session device) (d1 : device) :
  chan_write (ctx s) "voltage0_i" true "main_ffh_index" n = Ok d1 ->
  let both := tx_main_ffh_index_set chan_write n ;;;
              tx_main_ffh_frequency_set chan_read chan_write f in
  let wi := ChanWrite "voltage0_i" true "main_ffh_index" n in
  let rd := ChanRead "voltage0_i" true "main_ffh_index" in
  let wf := ChanWrite "voltage0_i" true "main_ffh_frequency" f in
  (eq_zero n = true ->
   both s = (Raise (Exception ffh_error),
             {| self := self s; ctx := d1; trace := trace s ++ [wi; rd] |})) /\
  (eq_zero n = false ->
   forall d2, chan_write d1 "voltage0_i" true "main_ffh_frequency" f = Ok d2 ->
   both s = (Ok tt, {| self := self s; ctx := d2; trace := trace s ++ [wi; rd; wf] |})).
Proof.
  intros Hw both wi rd wf.
  assert (Hrd := read_back _ _ _ _ _ _ Hw).
  assert (E1 : tx_main_ffh_index_set chan_write n s
               = (Ok tt, {| self := self s; ctx := d1; trace := trace s ++ [wi] |})).
  { unfold tx_main_ffh_index_set, _set_iio_attr, mbind, log, modify, gets, lift, set_ctx.
    simpl. rewrite Hw. reflexivity. }
  assert (E2 : forall s1, ctx s1 = d1 ->
            tx_main_ffh_frequency_set chan_read chan_write f s1
            = (if eq_zero n then raise (Exception ffh_error)
               else _set_iio_attr chan_write "voltage0_i" "main_ffh_frequency" true f)
                {| self := self s1; ctx := ctx s1; trace := trace s1 ++ [rd] |}).
  { intros s1 Hs1.
    unfold tx_main_ffh_frequency_set, tx_main_ffh_index_get, _get_iio_attr.
    unfold mbind, log, modify, gets, lift. simpl. rewrite Hs1, Hrd. reflexivity. }
  assert (E3 : both s
               = (if eq_zero n then raise (Exception ffh_error)
                  else _set_iio_attr chan_write "voltage0_i" "main_ffh_frequency" true f)
                   {| self := self s; ctx := d1; trace := trace s ++ [wi; rd] |}).
  { subst both. unfold mbind at 1. rewrite E1. cbv beta iota.
    rewrite (E2 {| self := self s; ctx := d1; trace := trace s ++ [wi] |} eq_refl).
    simpl. rewrite <- app_assoc. reflexivity. }
  rewrite E3. clear E1 E2 E3.
  split; intros Hz; rewrite Hz.
  - reflexivity.
  - intros d2 Hw2.
    unfold _set_iio_attr, mbind, log, modify, gets, lift, set_ctx. simpl.
    rewrite Hw2. simpl. rewrite <- !app_assoc. reflexivity.
Qed.

End FacadeReads.

Lemma sim_read_back (d : sim_device) (c : string) (o : bool) (a : string) (v : value)
    (d' : sim_device) :
  sim_chan_write d c o a v = Ok d' -> sim_chan_read d' c o a = Ok v.
Proof.
  unfold sim_chan_write, sim_chan_read. intros E. injection E as <-.
  simpl. rewrite !String.eqb_refl, Bool.eqb_reflx. reflexivity.
Defined.

Lemma getters_do_not_write_witness :
  let s := {| self := class_ad9081;
              ctx := [("voltage0_i", true, "main_ffh_index", VNum 3)];
              trace := [ChanWrite "voltage0_i" true "main_ffh_index" (VNum 3)] |} in
  let s' := snd (run_op sim_chan_read sim_chan_write sim_dev_read sim_dev_write
                   Get_tx_main_ffh_index s) in
  ctx s' = ctx s /\ filter is_write (trace s') = filter is_write (trace s).
Proof.
  intros s.
  apply (getters_do_not_write sim_device sim_chan_read sim_chan_write
           sim_dev_read sim_dev_write Get_tx_main_ffh_index s eq_refl).
Defined.

Lemma ffh_index_then_frequency_witness :
  let s := {| self := class_ad9081; ctx := []; trace := [] |} in
  (tx_main_ffh_index_set sim_chan_write (VNum 0) ;;;
   tx_main_ffh_frequency_set sim_chan_read sim_chan_write (VNum 100)) s
  = (Raise (Exception ffh_error),
     {| self := class_ad9081;
        ctx := [("voltage0_i", true, "main_ffh_index", VNum 0)];
        trace := [ChanWrite "voltage0_i" true "main_ffh_index" (VNum 0);
                  ChanRead "voltage0_i" true "main_ffh_index"] |}).
Proof.
  intros s.
  destruct (ffh_index_then_frequency sim_device sim_chan_read sim_chan_write
              sim_read_back (VNum 0) (VNum 100) s
              [("voltage0_i", true, "main_ffh_index", VNum 0)] eq_refl)
    as [Hzero _].
  apply (Hzero eq_refl).
Defined.

(** ** The order of the converters in the path map *)

Lemma dict_set_keys {V : Type} (d : dict V) (k : string) (v : V) :
  map fst (dict_set d k v)
  = if existsb (String.eqb k) (map fst d) then map fst d else map fst d ++ [k].
Proof.
  induction d as [|[k' v'] t IH]; simpl; [reflexivity|].
  destruct (String.eqb k k'); simpl; [reflexivity|].
  rewrite IH. destruct (existsb (String.eqb k) (map fst t)); reflexivity.
Qed.

Lemma first_seen_ext (l s1 s2 : list string) :
  (forall y, existsb (String.eqb y) s1 = existsb (String.eqb y) s2) ->
  first_seen s1 l = first_seen s2 l.
Proof.
  revert s1 s2. induction l as [|x t IH]; intros s1 s2 H; simpl; [reflexivity|].
  rewrite <- (H x). destruct (existsb (String.eqb x) s1).
  - apply IH, H.
  - f_equal. apply IH. intros y. simpl. rewrite (H y). reflexivity.
Qed.

Lemma map_to_dict_keys (paths paths' : path_map) (ch : channel) (l f c a : string) :
  label ch = Some l -> label_tokens l = Some (f, c, a) ->
  _map_to_dict paths ch = Ok paths' ->
  map fst paths'
  = if existsb (String.eqb a) (map fst paths) then map fst paths
    else map fst paths ++ [a].
Proof.
  intros Hl Ht E. apply label_tokens_split in Ht.
  unfold _map_to_dict in E. rewrite Hl, Ht in E. injection E as <-.
  apply dict_set_keys.
Qed.

Lemma build_keys (chs : list channel) (paths m : path_map) :
  build_path_map paths chs = Ok m ->
  map fst m = map fst paths ++ first_seen (map fst paths) (converters_named chs).
Proof.
  revert paths. induction chs as [|ch rest IH]; intros paths E.
  - simpl in *. injection E as <-. rewrite app_nil_r. reflexivity.
  - cbn [build_path_map] in E. unfold converters_named. cbn [flat_map].
    fold (converters_named rest).
    destruct (label ch) as [l|] eqn:El; [|apply (IH paths E)].
    destruct (label_tokens l) as [[[f c] a]|] eqn:Et.
    + destruct (_map_to_dict paths ch) as [paths'|e] eqn:Estep; [|discriminate].
      simpl in E. rewrite (IH paths' E).
      rewrite (map_to_dict_keys paths paths' ch l f c a El Et Estep).
      cbn [app first_seen].
      destruct (existsb (String.eqb a) (map fst paths)) eqn:Emem; [reflexivity|].
      rewrite <- app_assoc. cbn [app]. do 2 f_equal.
      apply first_seen_ext. intros y. rewrite existsb_app. simpl.
      rewrite orb_false_r. apply orb_comm.
    + rewrite (map_to_dict_ill_labelled paths ch l El Et) in E. discriminate.
Qed.

Lemma first_seen_in (l seen : list string) (y : string) :
  In y (first_seen seen l) <-> In y l /\ existsb (String.eqb y) seen = false.
Proof.
  revert seen. induction l as [|x t IH]; intros seen; simpl; [tauto|].
  destruct (existsb (String.eqb x) seen) eqn:Ex.
  - rewrite IH. split.
    + intros [Hin Hm]. split; [right; exact Hin|exact Hm].
    + intros [[->|Hin] Hm]; [congruence|]. split; assumption.
  - simpl. rewrite IH. simpl. split.
    + intros [->|[Hin Hm]].
      * split; [left; reflexivity|exact Ex].
      * apply orb_false_iff in Hm. split; [right; exact Hin|apply Hm].
    + intros [[->|Hin] Hm]; [left; reflexivity|].
      destruct (String.eqb_spec y x) as [->|Hne]; [left; reflexivity|].
      right. split; [exact Hin|]. simpl. exact Hm.
Qed.

Lemma first_seen_nodup (l seen : list string) : NoDup (first_seen seen l).
Proof.
  revert seen. induction l as [|x t IH]; intros seen; simpl; [constructor|].
  destruct (existsb (String.eqb x) seen); [apply IH|].
  constructor; [|apply IH].
  intros Hin. apply first_seen_in in Hin. destruct Hin as [_ Hm].
  simpl in Hm. rewrite String.eqb_refl in Hm. discriminate.
Qed.

(** X18: the converter keys of the path map are the converters that the
    labels name, each once, in the order in which the channel list first
    names them; the constructor visits the converters in that order. *)
Theorem path_map_converter_order (chs : list channel) (m : path_map) :
  build_path_map [] chs = Ok m ->
  map fst m = first_seen [] (converters_named chs) /\
  NoDup (map fst m) /\
  (forall adc, In adc (map fst m) <-> In adc (converters_named chs)).
Proof.
  intros E. assert (Hk := build_keys chs [] m E). simpl in Hk.
  split; [exact Hk|]. rewrite Hk. split.
  - apply first_seen_nodup.
  - intros adc. rewrite first_seen_in. simpl. tauto.
Qed.

Lemma path_map_converter_order_witness :
  map fst
    [("DAC0", [("CDUC0", [("FDUC0", {| channels := ["voltage0_i"] |})])]);
     ("ADC0", [("CDDC0", [("FDDC0", {| channels := ["voltage0_i"; "voltage0_q"] |})])])]
  = first_seen []
      (converters_named
         [ {| _id := "voltage0_i"; label := Some "FDUC0->CDUC0->DAC0"; scan_element := false; output := true |};
           {| _id := "voltage0_i"; label := Some "FDDC0->CDDC0->ADC0"; scan_element := true; output := false |};
           {| _id := "voltage0_q"; label := Some "FDDC0->CDDC0->ADC0"; scan_element := true; output := false |} ]).
Proof.
  refine (proj1 (path_map_converter_order
    [ {| _id := "voltage0_i"; label := Some "FDUC0->CDUC0->DAC0"; scan_element := false; output := true |};
      {| _id := "voltage0_i"; label := Some "FDDC0->CDDC0->ADC0"; scan_element := true; output := false |};
      {| _id := "voltage0_q"; label := Some "FDDC0->CDDC0->ADC0"; scan_element := true; output := false |} ]
    [("DAC0", [("CDUC0", [("FDUC0", {| channels := ["voltage0_i"] |})])]);
     ("ADC0", [("CDDC0", [("FDDC0", {| channels := ["voltage0_i"; "voltage0_q"] |})])])]
    _)).
  reflexivity.
Defined.
